(** * Habit tracker: the streak engine, the completion toggle, the habit
    life cycle, the persistence gateway and the suggestion tables

    The development follows [src/App.tsx], [src/lib/videos.ts] and
    [src/lib/playlists.ts].  The JavaScript run time the program stands on
    (strings, [Date], [JSON], [AsyncStorage]) is modelled first, the
    program after it, the properties last. *)

From Stdlib Require Import Ascii String.
From stdpp Require Import base numbers list sorting gmap strings pretty.

(** * Part I: definitions *)

(** ** JavaScript strings

    A string is its sequence of UTF-16 code units.  [js] reads an ASCII
    literal; a character outside ASCII is written as its code units. *)

Abbreviation jsstring := (list N).

Definition js (s : string) : jsstring := N_of_ascii <$> list_ascii_of_string s.

Module JsString.

(** [s.startsWith(kw)], the test [includes] makes at every position. *)
Fixpoint startsWith (s kw : jsstring) {struct kw} : bool :=
  match kw, s with
  | [], _ => true
  | _ :: _, [] => false
  | k :: kw', c :: s' => bool_decide (c = k) && startsWith s' kw'
  end.

(** [s.includes(kw)]: [kw] occurs in [s] as a run of consecutive code
    units. *)
Fixpoint includes (s kw : jsstring) : bool :=
  startsWith s kw ||
  match s with
  | [] => false
  | _ :: s' => includes s' kw
  end.

(** White space and line terminators of ECMAScript, the code units
    [trim] strips: TAB, LF, VT, FF, CR, SP, NBSP, the Zs category,
    LS, PS and the byte order mark. *)
Definition isWhiteSpace (c : N) : bool :=
  bool_decide (c ∈ [0x0009; 0x000A; 0x000B; 0x000C; 0x000D; 0x0020; 0x00A0;
                    0x1680; 0x2000; 0x2001; 0x2002; 0x2003; 0x2004; 0x2005;
                    0x2006; 0x2007; 0x2008; 0x2009; 0x200A; 0x2028; 0x2029;
                    0x202F; 0x205F; 0x3000; 0xFEFF]%N).

Fixpoint trimStart (s : jsstring) : jsstring :=
  match s with
  | c :: s' => if isWhiteSpace c then trimStart s' else s
  | [] => []
  end.

Definition trimEnd (s : jsstring) : jsstring := reverse (trimStart (reverse s)).

(** [s.trim()] *)
Definition trim (s : jsstring) : jsstring := trimEnd (trimStart s).

(** Truthiness of a string: every string but the empty one. *)
Definition truthy (s : jsstring) : bool :=
  match s with [] => false | _ :: _ => true end.

(** The order of the default [Array.prototype.sort] on strings: code
    unit by code unit, a proper prefix first. *)
Fixpoint leb (a b : jsstring) : bool :=
  match a, b with
  | [], _ => true
  | _ :: _, [] => false
  | x :: a', y :: b' => (x <? y)%N || (bool_decide (x = y) && leb a' b')
  end.

(** ASCII case mapping, the part of [toLowerCase] the keyword tables
    rely on. *)
Definition lowerAscii (c : N) : N :=
  if bool_decide (0x41 ≤ c ≤ 0x5A)%N then (c + 0x20)%N else c.

Definition isAscii (c : N) : Prop := (c < 0x80)%N.

End JsString.

(** ** lib/videos.ts *)

Module Videos.

Record VideoEntry := {
  keywords : list jsstring;
  videoId : jsstring;
  title : jsstring;
}.

(** The object [{ videoId, title }] that [suggestVideo] returns. *)
Record Suggested := {
  suggestedVideoId : jsstring;
  suggestedTitle : jsstring;
}.

Definition VIDEO_MAP : list VideoEntry :=
[
  {| keywords := [js "meditat"; js "mindful"; js "breathe"; js "breath"; js "calm"; js "relax"];
     videoId := js "inpok4MKVLM";
     title := js "5-Minute Meditation You Can Do Anywhere" |};
  {| keywords := [js "run"; js "jog"; js "cardio"; js "marathon"; js "sprint"];
     videoId := js "iSFpgQUGCVo";
     title := js "How to Start Running (and Actually Enjoy It)" |};
  {| keywords := [js "workout"; js "exercise"; js "gym"; js "lift"; js "strength"; js "fitness"; js "train"];
     videoId := js "vc1E5CfRfos";
     title := js "The Science of Getting Stronger" |};
  {| keywords := [js "read"; js "book"; js "learn"; js "study"];
     videoId := js "YjPDMHB_oEY";
     title := js "How to Read More Books" |};
  {| keywords := [js "journal"; js "write"; js "diary"; js "gratitud"];
     videoId := js "dArgOrm98Bk";
     title := js "The Life-Changing Habit of Journaling" |};
  {| keywords := [js "sleep"; js "wake"; js "morning"; js "routine"; js "rise"];
     videoId := js "nm1TxQj9IsQ";
     title := js "The Perfect Morning Routine" |};
  {| keywords := [js "water"; js "hydrat"; js "drink"];
     videoId := js "aQiGDPuk3EQ";
     title := js "Why Staying Hydrated Is So Important" |};
  {| keywords := [js "diet"; js "eat"; js "food"; js "nutrition"; js "vegetable"; js "fruit"; js "cook"];
     videoId := js "fqhYBTg73fw";
     title := js "How to Build Healthy Eating Habits" |};
  {| keywords := [js "walk"; js "step"; js "outdoor"; js "nature"; js "hike"];
     videoId := js "bnHMDMxLKhw";
     title := js "The Surprising Benefits of Walking" |};
  {| keywords := [js "stretch"; js "yoga"; js "flex"; js "mobil"];
     videoId := js "4pKly2JojMw";
     title := js "10-Minute Morning Yoga for Beginners" |};
  {| keywords := [js "cod"; js "program"; js "develop"; js "hack"; js "build"; js "software"];
     videoId := js "NtfbWkxJTHw";
     title := js "How to Build a Coding Habit" |};
  {| keywords := [js "langua"; js "speak"; js "spanish"; js "french"; js "german"; js "chinese"; js "japanese"];
     videoId := js "illApgaLgGA";
     title := js "How to Learn Any Language" |};
  {| keywords := [js "saving"; js "save"; js "money"; js "financ"; js "budget"; js "invest"];
     videoId := js "HQzoZfc3GwQ";
     title := js "How to Build Better Money Habits" |};
  {| keywords := [js "social"; js "phone"; js "screen"; js "detox"; js "digital"];
     videoId := js "OoFSMRHgSHA";
     title := js "How to Break Your Phone Addiction" |};
  {| keywords := [js "focus"; js "productiv"; js "deep work"; js "pomodoro"; js "distract"];
     videoId := js "WXBA4eWskrc";
     title := js "How to Focus Like a Navy SEAL" |};
  {| keywords := [js "cold"; js "shower"; js "ice"];
     videoId := js "NUYP3bBnBY0";
     title := js "Cold Showers " ++ [0x2014]%N ++ js " What Happens to Your Body" |};
  {| keywords := [js "vitamin"; js "supplement"; js "health"];
     videoId := js "fLNJLIKMFsM";
     title := js "Daily Habits for Long-Term Health" |};
  {| keywords := [js "gratitude"; js "thankful"; js "positive"; js "mindset"];
     videoId := js "WPPPFqsECz0";
     title := js "The Power of Gratitude" |}
].

Definition FALLBACK : Suggested :=
  {| suggestedVideoId := js "ZXsQAXx_ao0";
     suggestedTitle := js "The Power of Small Habits " ++ [0x2014]%N ++ js " James Clear" |}.

Section Lookup.
(** [String.prototype.toLowerCase] of the run time. *)
Variable toLowerCase : jsstring → jsstring.

(** [entry.keywords.some((kw) => lower.includes(kw))] *)
Definition matches (lower : jsstring) (entry : VideoEntry) : bool :=
  existsb (λ kw, JsString.includes lower kw) (keywords entry).

(** The [for (const entry of VIDEO_MAP)] loop with its early return. *)
Fixpoint lookup (lower : jsstring) (entries : list VideoEntry) : Suggested :=
  match entries with
  | [] => FALLBACK
  | entry :: rest =>
      if matches lower entry
      then {| suggestedVideoId := videoId entry; suggestedTitle := title entry |}
      else lookup lower rest
  end.

Definition suggestVideo (habitName : jsstring) : Suggested :=
  let lower := toLowerCase habitName in
  lookup lower VIDEO_MAP.
End Lookup.

End Videos.

(** ** lib/playlists.ts *)

Module Playlists.

Record PlaylistEntry := {
  keywords : list jsstring;
  playlistId : jsstring;
  title : jsstring;
  description : jsstring;
  category : jsstring;
  emoji : jsstring;
  color : jsstring;
}.

Definition PLAYLIST_MAP : list PlaylistEntry :=
[
  {| keywords := [js "focus"; js "productiv"; js "deep work"; js "study"; js "pomodoro"; js "work"; js "cod"; js "program"; js "develop"];
     playlistId := js "PLOfLYVXrwqBwbNnkVWUfFHFpbmmr5VJo_";
     title := js "Deep Focus " ++ [0x2014]%N ++ js " Study & Work";
     description := js "Instrumental music for deep concentration";
     category := js "Focus"; emoji := [0xD83C; 0xDFAF]%N; color := js "#EEF2FF" |};
  {| keywords := [js "workout"; js "gym"; js "lift"; js "strength"; js "fitness"; js "train"; js "exercise"];
     playlistId := js "PLx65qkgCWNJIgq1Mj0rtsthQSXe3bQoLt";
     title := js "Ultimate Workout Motivation";
     description := js "High energy tracks to power your training";
     category := js "Workout"; emoji := [0xD83D; 0xDCAA]%N; color := js "#FFF1F2" |};
  {| keywords := [js "run"; js "jog"; js "cardio"; js "marathon"; js "sprint"];
     playlistId := js "PLgzTt0k8mXzEk586ze4BjKDn2KKOIUmMX";
     title := js "Running Motivation Mix";
     description := js "Upbeat beats to keep your pace up";
     category := js "Running"; emoji := [0xD83C; 0xDFC3]%N; color := js "#FFF7ED" |};
  {| keywords := [js "meditat"; js "mindful"; js "breathe"; js "breath"; js "calm"; js "relax"];
     playlistId := js "PLQ_PIlf6OzqJpURN4dFxHV82l4vV7OEKZ";
     title := js "Meditation & Mindfulness";
     description := js "Calm ambient sounds for meditation";
     category := js "Calm"; emoji := [0xD83E; 0xDDD8]%N; color := js "#F0FDF4" |};
  {| keywords := [js "sleep"; js "rest"; js "nap"; js "bedtime"];
     playlistId := js "PLtBQA7FZXBU2E2RcRLNnFHhzNKERnMV-L";
     title := js "Sleep Sounds & Relaxation";
     description := js "Gentle sounds to help you drift off";
     category := js "Sleep"; emoji := [0xD83D; 0xDE34]%N; color := js "#F5F3FF" |};
  {| keywords := [js "yoga"; js "stretch"; js "flex"; js "mobil"; js "pilates"];
     playlistId := js "PLgzTt0k8mXzHQCkrHxBTQNLIUUMm8XEIQ";
     title := js "Yoga Flow Music";
     description := js "Peaceful music for flow and flexibility";
     category := js "Yoga"; emoji := [0xD83C; 0xDF3F]%N; color := js "#ECFDF5" |};
  {| keywords := [js "morning"; js "wake"; js "rise"; js "routine"];
     playlistId := js "PLgzTt0k8mXzEk586ze4BjKDn2KKOIUmMX";
     title := js "Morning Energy Boost";
     description := js "Start your day with positive vibes";
     category := js "Morning"; emoji := [0x2600; 0xFE0F]%N; color := js "#FFFBEB" |};
  {| keywords := [js "read"; js "book"; js "learn"];
     playlistId := js "PLOfLYVXrwqBwbNnkVWUfFHFpbmmr5VJo_";
     title := js "Reading Ambience";
     description := js "Calm background music for reading";
     category := js "Reading"; emoji := [0xD83D; 0xDCDA]%N; color := js "#EFF6FF" |};
  {| keywords := [js "journal"; js "write"; js "diary"];
     playlistId := js "PLQ_PIlf6OzqJpURN4dFxHV82l4vV7OEKZ";
     title := js "Journaling Atmosphere";
     description := js "Reflective ambient sounds for writing";
     category := js "Journal"; emoji := [0x270D; 0xFE0F]%N; color := js "#FDF4FF" |};
  {| keywords := [js "walk"; js "step"; js "outdoor"; js "nature"; js "hike"];
     playlistId := js "PLgzTt0k8mXzHQCkrHxBTQNLIUUMm8XEIQ";
     title := js "Nature Walk Vibes";
     description := js "Easy listening for your daily walk";
     category := js "Walk"; emoji := [0xD83D; 0xDEB6]%N; color := js "#F0FDF4" |};
  {| keywords := [js "cook"; js "food"; js "eat"; js "nutrition"; js "diet"; js "meal"];
     playlistId := js "PLx65qkgCWNJIgq1Mj0rtsthQSXe3bQoLt";
     title := js "Cooking Vibes";
     description := js "Feel-good music for the kitchen";
     category := js "Cooking"; emoji := [0xD83C; 0xDF73]%N; color := js "#FFF7ED" |};
  {| keywords := [js "langua"; js "spanish"; js "french"; js "german"; js "chinese"; js "japanese"; js "speak"];
     playlistId := js "PLOfLYVXrwqBwbNnkVWUfFHFpbmmr5VJo_";
     title := js "Language Learning Focus";
     description := js "Concentration music for language study";
     category := js "Language"; emoji := [0xD83C; 0xDF0D]%N; color := js "#EEF2FF" |};
  {| keywords := [js "cold"; js "shower"; js "ice"];
     playlistId := js "PLx65qkgCWNJIgq1Mj0rtsthQSXe3bQoLt";
     title := js "Cold Shower Pump-Up";
     description := js "High energy to get you through it";
     category := js "Energy"; emoji := [0x26A1]%N; color := js "#FFF1F2" |};
  {| keywords := [js "gratitude"; js "thankful"; js "positive"; js "mindset"; js "affirm"];
     playlistId := js "PLQ_PIlf6OzqJpURN4dFxHV82l4vV7OEKZ";
     title := js "Positive Mindset Music";
     description := js "Uplifting tracks for a grateful mindset";
     category := js "Mindset"; emoji := [0x2728]%N; color := js "#FFFBEB" |};
  {| keywords := [js "saving"; js "money"; js "financ"; js "budget"; js "invest"];
     playlistId := js "PLOfLYVXrwqBwbNnkVWUfFHFpbmmr5VJo_";
     title := js "Deep Work " ++ [0x2014]%N ++ js " Finance Mode";
     description := js "Focus music for planning and analysis";
     category := js "Finance"; emoji := [0xD83D; 0xDCB0]%N; color := js "#F0FDF4" |}
].

Definition FALLBACK : PlaylistEntry :=
  {| keywords := [];
     playlistId := js "PLx65qkgCWNJIgq1Mj0rtsthQSXe3bQoLt";
     title := js "Motivation & Success";
     description := js "Fuel your habits with great music";
     category := js "Motivation"; emoji := [0xD83D; 0xDE80]%N; color := js "#EEF2FF" |}.

Section Lookup.
Variable toLowerCase : jsstring → jsstring.

Definition matches (lower : jsstring) (entry : PlaylistEntry) : bool :=
  existsb (λ kw, JsString.includes lower kw) (keywords entry).

Fixpoint lookup (lower : jsstring) (entries : list PlaylistEntry) : PlaylistEntry :=
  match entries with
  | [] => FALLBACK
  | entry :: rest => if matches lower entry then entry else lookup lower rest
  end.

Definition suggestPlaylist (habitName : jsstring) : PlaylistEntry :=
  let lower := toLowerCase habitName in
  lookup lower PLAYLIST_MAP.
End Lookup.

End Playlists.

(** ** The [Date] object

    A [Date] is its time value: milliseconds since 1970-01-01T00:00:00Z.
    The definitions are those of ECMAScript's "Date objects" clause.  Only
    finite time values occur ([new Date()] is the current instant), so
    [NaN] and [TimeClip] are left out.  The local time zone enters through
    [LocalTZA] alone, as in the standard. *)

Module JsDate.
Local Open Scope Z_scope.

Definition msPerDay : Z := 86400000.
Definition msPerHour : Z := 3600000.
Definition msPerMinute : Z := 60000.
Definition msPerSecond : Z := 1000.

Definition Day (t : Z) : Z := t `div` msPerDay.
Definition TimeWithinDay (t : Z) : Z := t `mod` msPerDay.

Definition DaysInYear (y : Z) : Z :=
  if negb (y `mod` 4 =? 0) then 365
  else if negb (y `mod` 100 =? 0) then 366
  else if negb (y `mod` 400 =? 0) then 365
  else 366.

Definition DayFromYear (y : Z) : Z :=
  365 * (y - 1970) + (y - 1969) `div` 4 - (y - 1901) `div` 100
  + (y - 1601) `div` 400.

(** The largest [y] with [DayFromYear y <= Day t]: the mean year length
    gives an estimate that is off by at most one. *)
Definition YearFromTime (t : Z) : Z :=
  let d := Day t in
  let y := 1970 + (400 * d) `div` 146097 in
  if d <? DayFromYear y then y - 1
  else if DayFromYear (y + 1) <=? d then y + 1
  else y.

Definition InLeapYear (t : Z) : Z :=
  if DaysInYear (YearFromTime t) =? 366 then 1 else 0.

Definition DayWithinYear (t : Z) : Z := Day t - DayFromYear (YearFromTime t).

Definition MonthFromTime (t : Z) : Z :=
  let d := DayWithinYear t in
  let l := InLeapYear t in
  if d <? 31 then 0
  else if d <? 59 + l then 1
  else if d <? 90 + l then 2
  else if d <? 120 + l then 3
  else if d <? 151 + l then 4
  else if d <? 181 + l then 5
  else if d <? 212 + l then 6
  else if d <? 243 + l then 7
  else if d <? 273 + l then 8
  else if d <? 304 + l then 9
  else if d <? 334 + l then 10
  else 11.

Definition DateFromTime (t : Z) : Z :=
  let d := DayWithinYear t in
  let l := InLeapYear t in
  match MonthFromTime t with
  | 0 => d + 1
  | 1 => d - 30
  | 2 => d - 58 - l
  | 3 => d - 89 - l
  | 4 => d - 119 - l
  | 5 => d - 150 - l
  | 6 => d - 180 - l
  | 7 => d - 211 - l
  | 8 => d - 242 - l
  | 9 => d - 272 - l
  | 10 => d - 303 - l
  | _ => d - 333 - l
  end.

Definition HourFromTime (t : Z) : Z := (t `div` msPerHour) `mod` 24.
Definition MinFromTime (t : Z) : Z := (t `div` msPerMinute) `mod` 60.
Definition SecFromTime (t : Z) : Z := (t `div` msPerSecond) `mod` 60.
Definition msFromTime (t : Z) : Z := t `mod` msPerSecond.

(** Day number of the first day of month [mn] (0 to 11) of year [ym]. *)
Definition DayFromMonth (ym mn : Z) : Z :=
  let l := if DaysInYear ym =? 366 then 1 else 0 in
  DayFromYear ym +
  match mn with
  | 0 => 0
  | 1 => 31
  | 2 => 59 + l
  | 3 => 90 + l
  | 4 => 120 + l
  | 5 => 151 + l
  | 6 => 181 + l
  | 7 => 212 + l
  | 8 => 243 + l
  | 9 => 273 + l
  | 10 => 304 + l
  | _ => 334 + l
  end.

(** [MakeDay]: the day of the first of the month, moved by [date - 1];
    a [date] below 1 or beyond the month's end reaches into the months
    around it. *)
Definition MakeDay (year month date : Z) : Z :=
  let ym := year + month `div` 12 in
  let mn := month `mod` 12 in
  DayFromMonth ym mn + date - 1.

Definition MakeDate (day time : Z) : Z := day * msPerDay + time.

(** Zero-padded decimal numeral of [width] digits. *)
Fixpoint digits (width : nat) (n : Z) : jsstring :=
  match width with
  | O => []
  | S w => digits w (n `div` 10) ++ [Z.to_N (48 + n `mod` 10)]
  end.

(** The year of an ISO string: four digits from 0 to 9999, a sign and
    six digits otherwise. *)
Definition isoYear (y : Z) : jsstring :=
  if bool_decide (0 ≤ y ≤ 9999) then digits 4 y
  else (if 0 <=? y then js "+" else js "-") ++ digits 6 (Z.abs y).

(** [d.toISOString()]: YYYY-MM-DDTHH:mm:ss.sssZ, always in UTC. *)
Definition toISOString (t : Z) : jsstring :=
  isoYear (YearFromTime t) ++ js "-" ++ digits 2 (MonthFromTime t + 1)
  ++ js "-" ++ digits 2 (DateFromTime t)
  ++ js "T" ++ digits 2 (HourFromTime t) ++ js ":" ++ digits 2 (MinFromTime t)
  ++ js ":" ++ digits 2 (SecFromTime t) ++ js "." ++ digits 3 (msFromTime t)
  ++ js "Z".

(** [s.slice(0, n)] *)
Definition slice0 (n : nat) (s : jsstring) : jsstring := take n s.

#[global] Arguments toISOString : simpl never.
#[global] Arguments slice0 : simpl never.

(** [Date.now().toString()]: the decimal numeral of an integer. *)
Definition numberToString (n : Z) : jsstring := js (pretty n).

Section LocalTime.
(** [LocalTZA t isUTC]: the offset of local time from UTC in
    milliseconds, at the UTC instant [t] when [isUTC], at the local
    time [t] otherwise. *)
Variable LocalTZA : Z → bool → Z.

Definition LocalTime (t : Z) : Z := t + LocalTZA t true.
Definition UTC (t : Z) : Z := t - LocalTZA t false.

(** [d.getDate()]: the day of the month in local time. *)
Definition getDate (t : Z) : Z := DateFromTime (LocalTime t).

(** [d.setDate(dt)]: the new time value of [d]. *)
Definition setDate (t dt : Z) : Z :=
  let lt := LocalTime t in
  let newDate :=
    MakeDate (MakeDay (YearFromTime lt) (MonthFromTime lt) dt)
             (TimeWithinDay lt) in
  UTC newDate.
End LocalTime.

(** A zone that keeps one offset all year, in minutes east of UTC. *)
Definition fixedZone (minutes : Z) : Z → bool → Z :=
  λ _ _, minutes * msPerMinute.

End JsDate.

(** ** [JSON.stringify] and [JSON.parse]

    Values are the JSON values.  An object keeps its properties in
    insertion order, which is the order [JSON.stringify] writes them in
    (no key of the program's records is an array index, the one case in
    which a JavaScript object reorders).  A number is kept as its
    numeral: the program stores none and reads none. *)

Module Json.
Local Open Scope N_scope.

#[local] Set Warnings "-register-all".
Inductive value : Type :=
| JNull
| JBool (b : bool)
| JNumber (numeral : jsstring)
| JString (s : jsstring)
| JArray (elements : list value)
| JObject (properties : list (jsstring * value)).

(** *** Writing *)

Definition hexDigit (n : N) : N := if n <? 10 then 0x30 + n else 0x57 + n.

(** The escape \uXXXX, in lower-case hexadecimal. *)
Definition unicodeEscape (c : N) : jsstring :=
  [0x5C; 0x75; hexDigit ((c / 4096) `mod` 16); hexDigit ((c / 256) `mod` 16);
   hexDigit ((c / 16) `mod` 16); hexDigit (c `mod` 16)].

Definition isLeadingSurrogate (c : N) : bool := (0xD800 <=? c) && (c <=? 0xDBFF).
Definition isTrailingSurrogate (c : N) : bool := (0xDC00 <=? c) && (c <=? 0xDFFF).

(** One code unit that is not half of a surrogate pair. *)
Definition quoteUnit (c : N) : jsstring :=
  if c =? 0x08 then [0x5C; 0x62]
  else if c =? 0x09 then [0x5C; 0x74]
  else if c =? 0x0A then [0x5C; 0x6E]
  else if c =? 0x0C then [0x5C; 0x66]
  else if c =? 0x0D then [0x5C; 0x72]
  else if c =? 0x22 then [0x5C; 0x22]
  else if c =? 0x5C then [0x5C; 0x5C]
  else if (c <? 0x20) || isLeadingSurrogate c || isTrailingSurrogate c
       then unicodeEscape c
  else [c].

(** The characters of [QuoteJSONString]: a surrogate pair is written
    as it is, a lone surrogate is escaped. *)
Fixpoint quoteChars (s : jsstring) : jsstring :=
  match s with
  | [] => []
  | c :: s' =>
      if isLeadingSurrogate c then
        match s' with
        | c2 :: s'' =>
            if isTrailingSurrogate c2 then c :: c2 :: quoteChars s''
            else unicodeEscape c ++ quoteChars s'
        | [] => unicodeEscape c
        end
      else quoteUnit c ++ quoteChars s'
  end.

Definition quote (s : jsstring) : jsstring := [0x22] ++ quoteChars s ++ [0x22].

(** [items.join(",")] *)
Fixpoint joinComma (items : list jsstring) : jsstring :=
  match items with
  | [] => []
  | [x] => x
  | x :: rest => x ++ [0x2C] ++ joinComma rest
  end.

(** [JSON.stringify(v)], without indentation. *)
Fixpoint stringify (v : value) : jsstring :=
  match v with
  | JNull => js "null"
  | JBool true => js "true"
  | JBool false => js "false"
  | JNumber numeral => numeral
  | JString s => quote s
  | JArray elements => [0x5B] ++ joinComma (map stringify elements) ++ [0x5D]
  | JObject properties =>
      [0x7B]
      ++ joinComma (map (λ p, quote (fst p) ++ [0x3A] ++ stringify (snd p)) properties)
      ++ [0x7D]
  end.

(** *** Reading *)

Definition isJsonWhiteSpace (c : N) : bool :=
  (c =? 0x09) || (c =? 0x0A) || (c =? 0x0D) || (c =? 0x20).

Fixpoint skipWhiteSpace (s : jsstring) : jsstring :=
  match s with
  | c :: s' => if isJsonWhiteSpace c then skipWhiteSpace s' else s
  | [] => []
  end.

Definition hexValue (c : N) : option N :=
  if (0x30 <=? c) && (c <=? 0x39) then Some (c - 0x30)
  else if (0x41 <=? c) && (c <=? 0x46) then Some (c - 0x37)
  else if (0x61 <=? c) && (c <=? 0x66) then Some (c - 0x57)
  else None.

Definition simpleEscape (e : N) : option N :=
  if e =? 0x22 then Some 0x22
  else if e =? 0x5C then Some 0x5C
  else if e =? 0x2F then Some 0x2F
  else if e =? 0x62 then Some 0x08
  else if e =? 0x66 then Some 0x0C
  else if e =? 0x6E then Some 0x0A
  else if e =? 0x72 then Some 0x0D
  else if e =? 0x74 then Some 0x09
  else None.

(** The characters of a string literal after its opening quote, up to
    and including the closing one. *)
Fixpoint parseChars (s : jsstring) : option (jsstring * jsstring) :=
  match s with
  | [] => None
  | c :: s' =>
      if c =? 0x22 then Some ([], s')
      else if c =? 0x5C then
        match s' with
        | [] => None
        | e :: s'' =>
            if e =? 0x75 then
              match s'' with
              | h1 :: h2 :: h3 :: h4 :: s4 =>
                  d1 ← hexValue h1; d2 ← hexValue h2;
                  d3 ← hexValue h3; d4 ← hexValue h4;
                  r ← parseChars s4;
                  Some ((d1 * 4096 + d2 * 256 + d3 * 16 + d4) :: r.1, r.2)
              | _ => None
              end
            else
              u ← simpleEscape e;
              r ← parseChars s'';
              Some (u :: r.1, r.2)
        end
      else if c <? 0x20 then None
      else r ← parseChars s'; Some (c :: r.1, r.2)
  end.

Definition isDigit (c : N) : bool := (0x30 <=? c) && (c <=? 0x39).

Fixpoint spanDigits (s : jsstring) : jsstring * jsstring :=
  match s with
  | c :: s' =>
      if isDigit c then let r := spanDigits s' in (c :: r.1, r.2) else ([], s)
  | [] => ([], [])
  end.

(** One or more digits. *)
Definition parseDigits (s : jsstring) : option (jsstring * jsstring) :=
  match spanDigits s with
  | ([], _) => None
  | r => Some r
  end.

(** A numeral: an optional sign, an integer part without a leading
    zero, an optional fraction and an optional exponent. *)
Definition parseNumeral (s : jsstring) : option (jsstring * jsstring) :=
  let '(sign, s1) :=
    match s with 0x2D :: s' => ([0x2D], s') | _ => ([], s) end in
  int ← match s1 with
        | 0x30 :: s' => Some ([0x30], s')
        | _ => parseDigits s1
        end;
  frac ← match int.2 with
         | 0x2E :: s' => r ← parseDigits s'; Some (0x2E :: r.1, r.2)
         | _ => Some ([], int.2)
         end;
  exp ← match frac.2 with
        | e :: s' =>
            if (e =? 0x65) || (e =? 0x45) then
              let '(esign, s2) :=
                match s' with
                | c :: s'' =>
                    if (c =? 0x2B) || (c =? 0x2D) then ([c], s'') else ([], s')
                | [] => ([], s')
                end in
              r ← parseDigits s2; Some (e :: esign ++ r.1, r.2)
            else Some ([], frac.2)
        | [] => Some ([], frac.2)
        end;
  Some (sign ++ int.1 ++ frac.1 ++ exp.1, exp.2).

(** [CreateDataProperty]: a key that is already there keeps its place
    and takes the new value. *)
Fixpoint setProperty (k : jsstring) (v : value) (ps : list (jsstring * value))
  : list (jsstring * value) :=
  match ps with
  | [] => [(k, v)]
  | p :: ps' =>
      if decide (p.1 = k) then (k, v) :: ps' else p :: setProperty k v ps'
  end.

(** [o[k]]; [None] is [undefined]. *)
Fixpoint getProperty (k : jsstring) (ps : list (jsstring * value)) : option value :=
  match ps with
  | [] => None
  | p :: ps' => if decide (p.1 = k) then Some p.2 else getProperty k ps'
  end.

(** The recursive-descent reader.  [fuel] bounds the nesting and the
    number of elements still to read; [parse] passes more than the
    length of the text, which is always enough. *)
Fixpoint parseValue (fuel : nat) (s : jsstring) : option (value * jsstring) :=
  match fuel with
  | O => None
  | S fuel' =>
      match skipWhiteSpace s with
      | 0x6E :: 0x75 :: 0x6C :: 0x6C :: rest => Some (JNull, rest)
      | 0x74 :: 0x72 :: 0x75 :: 0x65 :: rest => Some (JBool true, rest)
      | 0x66 :: 0x61 :: 0x6C :: 0x73 :: 0x65 :: rest => Some (JBool false, rest)
      | 0x22 :: s' => r ← parseChars s'; Some (JString r.1, r.2)
      | 0x5B :: s' =>
          match skipWhiteSpace s' with
          | 0x5D :: rest => Some (JArray [], rest)
          | _ => r ← parseElements fuel' s'; Some (JArray r.1, r.2)
          end
      | 0x7B :: s' =>
          match skipWhiteSpace s' with
          | 0x7D :: rest => Some (JObject [], rest)
          | _ => r ← parseMembers fuel' [] s'; Some (JObject r.1, r.2)
          end
      | s' => r ← parseNumeral s'; Some (JNumber r.1, r.2)
      end
  end
with parseElements (fuel : nat) (s : jsstring) : option (list value * jsstring) :=
  match fuel with
  | O => None
  | S fuel' =>
      r ← parseValue fuel' s;
      match skipWhiteSpace r.2 with
      | 0x2C :: s' => rs ← parseElements fuel' s'; Some (r.1 :: rs.1, rs.2)
      | 0x5D :: rest => Some ([r.1], rest)
      | _ => None
      end
  end
with parseMembers (fuel : nat) (acc : list (jsstring * value)) (s : jsstring)
  : option (list (jsstring * value) * jsstring) :=
  match fuel with
  | O => None
  | S fuel' =>
      match skipWhiteSpace s with
      | 0x22 :: s1 =>
          k ← parseChars s1;
          match skipWhiteSpace k.2 with
          | 0x3A :: s2 =>
              r ← parseValue fuel' s2;
              let acc' := setProperty k.1 r.1 acc in
              match skipWhiteSpace r.2 with
              | 0x2C :: s3 => parseMembers fuel' acc' s3
              | 0x7D :: rest => Some (acc', rest)
              | _ => None
              end
          | _ => None
          end
      | _ => None
      end
  end.

(** [JSON.parse(text)]; [None] is the [SyntaxError]. *)
Definition parse (text : jsstring) : option value :=
  r ← parseValue (S (length text)) text;
  match skipWhiteSpace r.2 with
  | [] => Some r.1
  | _ => None
  end.

End Json.

(** ** App.tsx *)

Module App.
Local Open Scope Z_scope.

(** *** Types

    The interface declares every field a string.  The suggestion
    fields are nevertheless not always there: a record stored by an
    earlier version of the app has none of them, or the video ones
    only, the card tests [habit.playlistCategory] and
    [habit.playlistId] before it uses them, and [addHabit] fills
    [videoTitle] from a property that [suggestVideo]'s result does not
    have, so the value it stores is [undefined].  A property that is
    absent or [undefined] is [None]. *)
Record Habit := {
  id : jsstring;
  name : jsstring;
  createdAt : jsstring;
  videoId : option jsstring;
  videoTitle : option jsstring;
  playlistId : option jsstring;
  playlistTitle : option jsstring;
  playlistCategory : option jsstring;
  playlistEmoji : option jsstring;
  playlistColor : option jsstring;
}.

Record Completion := {
  habitId : jsstring;
  date : jsstring;
}.

#[export] Instance Habit_eq_dec : EqDecision Habit.
Proof. solve_decision. Defined.

#[export] Instance Completion_eq_dec : EqDecision Completion.
Proof. solve_decision. Defined.

Definition HABITS_KEY : jsstring := js "@habits".
Definition COMPLETIONS_KEY : jsstring := js "@completions".

(** *** The records as JavaScript objects

    The property order is that of the object literals in [addHabit]
    and [toggleComplete].  A property whose value is [undefined] is
    not written by [JSON.stringify] and reads back as [undefined]. *)

Definition optionalProperty (k : jsstring) (o : option jsstring)
  : list (jsstring * Json.value) :=
  match o with
  | Some s => [(k, Json.JString s)]
  | None => []
  end.

Definition habitToJson (h : Habit) : Json.value :=
  Json.JObject
    ([(js "id", Json.JString (id h));
      (js "name", Json.JString (name h));
      (js "createdAt", Json.JString (createdAt h))]
     ++ optionalProperty (js "videoId") (videoId h)
     ++ optionalProperty (js "videoTitle") (videoTitle h)
     ++ optionalProperty (js "playlistId") (playlistId h)
     ++ optionalProperty (js "playlistTitle") (playlistTitle h)
     ++ optionalProperty (js "playlistCategory") (playlistCategory h)
     ++ optionalProperty (js "playlistEmoji") (playlistEmoji h)
     ++ optionalProperty (js "playlistColor") (playlistColor h)).

Definition completionToJson (c : Completion) : Json.value :=
  Json.JObject
    [(js "habitId", Json.JString (habitId c));
     (js "date", Json.JString (date c))].

Definition habitsToJson (habits : list Habit) : Json.value :=
  Json.JArray (map habitToJson habits).

Definition completionsToJson (completions : list Completion) : Json.value :=
  Json.JArray (map completionToJson completions).

(** [JSON.stringify(updated)] for the two collections. *)
Definition stringifyHabits (habits : list Habit) : jsstring :=
  Json.stringify (habitsToJson habits).

Definition stringifyCompletions (completions : list Completion) : jsstring :=
  Json.stringify (completionsToJson completions).

(** *** JavaScript values as the records

    [JSON.parse] returns a value of any shape and the program stores
    it without a look at it.  The state below holds records, so a
    parsed value is read as the list of records it is, when it is one:
    an array of objects that carry the properties of a record, strings
    all of them, in the order the program writes them and nothing else.
    [asHabit] and [asCompletion] are exact, [habitToJson] and
    [completionToJson] give the value back, so nothing of the stored
    object is lost or made up; a value they do not accept has no
    counterpart in the state. *)

(** The string property [k] when it comes first in [ps], and what
    follows it. *)
Definition takeString (k : jsstring) (ps : list (jsstring * Json.value))
  : option jsstring * list (jsstring * Json.value) :=
  match ps with
  | (k', Json.JString s) :: ps' =>
      if decide (k' = k) then (Some s, ps') else (None, ps)
  | _ => (None, ps)
  end.

Definition asHabit (v : Json.value) : option Habit :=
  match v with
  | Json.JObject ps =>
      let '(id0, ps) := takeString (js "id") ps in
      let '(name0, ps) := takeString (js "name") ps in
      let '(createdAt0, ps) := takeString (js "createdAt") ps in
      let '(videoId0, ps) := takeString (js "videoId") ps in
      let '(videoTitle0, ps) := takeString (js "videoTitle") ps in
      let '(playlistId0, ps) := takeString (js "playlistId") ps in
      let '(playlistTitle0, ps) := takeString (js "playlistTitle") ps in
      let '(playlistCategory0, ps) := takeString (js "playlistCategory") ps in
      let '(playlistEmoji0, ps) := takeString (js "playlistEmoji") ps in
      let '(playlistColor0, ps) := takeString (js "playlistColor") ps in
      match id0, name0, createdAt0, ps with
      | Some id1, Some name1, Some createdAt1, [] =>
          Some {| id := id1; name := name1; createdAt := createdAt1;
                  videoId := videoId0; videoTitle := videoTitle0;
                  playlistId := playlistId0; playlistTitle := playlistTitle0;
                  playlistCategory := playlistCategory0;
                  playlistEmoji := playlistEmoji0;
                  playlistColor := playlistColor0 |}
      | _, _, _, _ => None
      end
  | _ => None
  end.

Definition asCompletion (v : Json.value) : option Completion :=
  match v with
  | Json.JObject ps =>
      let '(habitId0, ps) := takeString (js "habitId") ps in
      let '(date0, ps) := takeString (js "date") ps in
      match habitId0, date0, ps with
      | Some habitId1, Some date1, [] =>
          Some {| habitId := habitId1; date := date1 |}
      | _, _, _ => None
      end
  | _ => None
  end.

Definition asHabits (v : Json.value) : option (list Habit) :=
  match v with
  | Json.JArray elements => mapM asHabit elements
  | _ => None
  end.

Definition asCompletions (v : Json.value) : option (list Completion) :=
  match v with
  | Json.JArray elements => mapM asCompletion elements
  | _ => None
  end.

(** *** Helpers *)

Definition todayStr (now : Z) : jsstring :=
  JsDate.slice0 10%nat (JsDate.toISOString now).

(** *** State

    The three [useState] cells of the component and the device's
    [AsyncStorage]. *)
Record State := {
  habits : list Habit;
  completions : list Completion;
  input : jsstring;
  storage : gmap jsstring jsstring;
}.

Definition setHabits (updated : list Habit) (st : State) : State :=
  {| habits := updated; completions := completions st;
     input := input st; storage := storage st |}.

Definition setCompletions (updated : list Completion) (st : State) : State :=
  {| habits := habits st; completions := updated;
     input := input st; storage := storage st |}.

Definition setInput (text : jsstring) (st : State) : State :=
  {| habits := habits st; completions := completions st;
     input := text; storage := storage st |}.

(** [AsyncStorage.setItem(key, value)] *)
Definition setItem (key value : jsstring) (st : State) : State :=
  {| habits := habits st; completions := completions st;
     input := input st; storage := <[key := value]> (storage st) |}.

(** The state of a freshly mounted component on a device whose
    storage is [disk]. *)
Definition mount (disk : gmap jsstring jsstring) : State :=
  {| habits := []; completions := []; input := []; storage := disk |}.

(** *** The effect that runs once after mounting

    [getItem] gives [null] for a missing record. *)

(** A call of a state setter, with the value it is given. *)
Inductive SetterCall :=
| SetHabits (v : Json.value)
| SetCompletions (v : Json.value).

(** [if (text) ... JSON.parse(text)]: [None] is the [SyntaxError],
    [Some None] a record that is missing or empty, for which nothing
    is parsed. *)
Definition parseRecord (record : option jsstring) : option (option Json.value) :=
  match record with
  | Some text =>
      if JsString.truthy text then option_map Some (Json.parse text) else Some None
  | None => Some None
  end.

(** The setter calls of the effect, in order, on a device whose
    storage is [disk].  Whatever [JSON.parse] returns is passed on; an
    exception it throws ends the effect where it is raised, after the
    calls made before. *)
Definition loadCalls (disk : gmap jsstring jsstring) : list SetterCall :=
  let h := disk !! HABITS_KEY in
  let c := disk !! COMPLETIONS_KEY in
  match parseRecord h with
  | None => []
  | Some parsedHabits =>
      let first :=
        match parsedHabits with
        | Some v => [SetHabits v]
        | None => []
        end in
      match parseRecord c with
      | None => first
      | Some parsedCompletions =>
          first ++ match parsedCompletions with
                   | Some v => [SetCompletions v]
                   | None => []
                   end
      end
  end.

(** A setter call on the state; [None] when the value is not a list
    of records, which the state cannot hold. *)
Definition call (st : State) (c : SetterCall) : option State :=
  match c with
  | SetHabits v => hs ← asHabits v; Some (setHabits hs st)
  | SetCompletions v => cs ← asCompletions v; Some (setCompletions cs st)
  end.

Fixpoint calls (st : State) (cs : list SetterCall) : option State :=
  match cs with
  | [] => Some st
  | c :: cs' => st' ← call st c; calls st' cs'
  end.

(** The state after the effect; [None] when a setter was given a value
    that is not a list of records: the component then holds a value
    that this state has no place for, and is followed no further. *)
Definition load (st : State) : option State :=
  calls st (loadCalls (storage st)).

Definition saveHabits (updated : list Habit) (st : State) : State :=
  setItem HABITS_KEY (stringifyHabits updated) (setHabits updated st).

Definition saveCompletions (updated : list Completion) (st : State) : State :=
  setItem COMPLETIONS_KEY (stringifyCompletions updated) (setCompletions updated st).

(** The button the user presses in the [Alert] of [deleteHabit]. *)
Inductive AlertButton := Cancel | Delete.

Definition deleteHabit (id0 : jsstring) (pressed : AlertButton) (st : State) : State :=
  match pressed with
  | Cancel => st
  | Delete =>
      let st1 := saveHabits (filter (λ h, id h ≠ id0) (habits st)) st in
      saveCompletions (filter (λ c, habitId c ≠ id0) (completions st)) st1
  end.

Definition toggleComplete (habitId0 : jsstring) (now : Z) (st : State) : State :=
  let t := todayStr now in
  let already :=
    bool_decide (Exists (λ c, habitId c = habitId0 ∧ date c = t) (completions st)) in
  let updated :=
    if already
    then filter (λ c, ¬ (habitId c = habitId0 ∧ date c = t)) (completions st)
    else completions st ++ [{| habitId := habitId0; date := t |}] in
  saveCompletions updated st.

Section Component.
Variable toLowerCase : jsstring → jsstring.
Variable LocalTZA : Z → bool → Z.

(** [cur.setDate(cur.getDate() - n)] *)
Definition daysBack (n : Z) (cur : Z) : Z :=
  JsDate.setDate LocalTZA cur (JsDate.getDate LocalTZA cur - n).

(** The loop of [lastNDays], from [i = n - 1] down to 0. *)
Fixpoint lastNDays (n : nat) (now : Z) : list jsstring :=
  match n with
  | O => []
  | S i =>
      JsDate.slice0 10%nat (JsDate.toISOString (daysBack (Z.of_nat i) now))
      :: lastNDays i now
  end.

(** The loop of [getStreak]: [n] iterations are left, [i] is the
    loop counter, [cur] the date object and [streak] the count. *)
Fixpoint streakLoop (dates : list jsstring) (n : nat) (i : Z) (cur : Z) (streak : Z)
  : Z :=
  match n with
  | O => streak
  | S n' =>
      let d := JsDate.slice0 10%nat (JsDate.toISOString cur) in
      if bool_decide (d ∈ dates)
      then streakLoop dates n' (i + 1) (daysBack 1 cur) (streak + 1)
      else if bool_decide (i = 0)
      then streakLoop dates n' (i + 1) (daysBack 1 cur) streak
      else streak
  end.

Definition getStreak (habitId0 : jsstring) (completions : list Completion) (now : Z)
  : Z :=
  let dates :=
    reverse (merge_sort (λ a b, JsString.leb a b)
               (map date (filter (λ c, habitId c = habitId0) completions))) in
  if bool_decide (length dates = 0%nat) then 0
  else streakLoop dates 365%nat 0 now 0.

Definition addHabit (nowId nowCreated : Z) (st : State) : State :=
  let name0 := JsString.trim (input st) in
  if negb (JsString.truthy name0) then st
  else
    let video := Videos.suggestVideo toLowerCase name0 in
    let playlist := Playlists.suggestPlaylist toLowerCase name0 in
    let habit :=
      {| id := JsDate.numberToString nowId;
         name := name0;
         createdAt := JsDate.toISOString nowCreated;
         videoId := Some (Videos.suggestedVideoId video);
         videoTitle := None;
         playlistId := Some (Playlists.playlistId playlist);
         playlistTitle := Some (Playlists.title playlist);
         playlistCategory := Some (Playlists.category playlist);
         playlistEmoji := Some (Playlists.emoji playlist);
         playlistColor := Some (Playlists.color playlist) |} in
    setInput [] (saveHabits (habits st ++ [habit]) st).

(** [completedToday] and [longestStreak] of the render. *)
Definition completedToday (now : Z) (st : State) : nat :=
  length (filter (λ h, Exists (λ c, habitId c = id h ∧ date c = todayStr now)
                         (completions st)) (habits st)).

End Component.

End App.

(** ** Vocabulary of the properties *)

(** [kw] occurs in [s] as a substring. *)
Definition occursIn (kw s : jsstring) : Prop := ∃ a b, s = a ++ kw ++ b.

(** One of the keywords occurs in the lower-cased name. *)
Definition keywordOccurs (keywords : list jsstring) (lower : jsstring) : Prop :=
  ∃ kw, kw ∈ keywords ∧ occursIn kw lower.

(** The ASCII instance of [toLowerCase], exact on names without a code
    unit above 0x7F. *)
Definition asciiLowerCase (s : jsstring) : jsstring := JsString.lowerAscii <$> s.

(** Habit [habitId0] has a completion dated [d] in the collection. *)
Definition completedOn (habitId0 : jsstring) (completions : list App.Completion)
    (d : jsstring) : Prop :=
  ∃ c, c ∈ completions ∧ App.habitId c = habitId0 ∧ App.date c = d.

(** At most one completion for each pair of a habit and a day. *)
Definition atMostOnePerDay (completions : list App.Completion) : Prop :=
  ∀ habitId0 d,
    (length (filter (λ c, App.habitId c = habitId0 ∧ App.date c = d) completions)
     ≤ 1)%nat.

Section Walk.
Variable LocalTZA : Z → bool → Z.

(** The date object of [getStreak] after [k] steps back from [now]. *)
Definition walkDate (now : Z) (k : nat) : Z :=
  Nat.iter k (App.daysBack LocalTZA 1) now.

(** The day the walk looks at at offset [k]. *)
Definition walkDay (now : Z) (k : nat) : jsstring :=
  JsDate.slice0 10 (JsDate.toISOString (walkDate now k)).
End Walk.

(** The walk as the specification words it: from offset 0, for at most
    [horizon] days; a completed day counts and the walk goes on, a
    missing day ends it unless it is offset 0, which is passed over. *)
Fixpoint specWalk (completed : nat → bool) (horizon offset : nat) : Z :=
  match horizon with
  | O => 0
  | S horizon' =>
      if completed offset then 1 + specWalk completed horizon' (S offset)
      else if bool_decide (offset = 0%nat) then specWalk completed horizon' (S offset)
      else 0
  end%Z.

#[export] Instance completedOn_dec habitId0 completions d :
  Decision (completedOn habitId0 completions d).
Proof.
  refine (cast_if (decide (Exists (λ c, App.habitId c = habitId0 ∧ App.date c = d)
                             completions)));
    unfold completedOn; rewrite Exists_exists in *; naive_solver.
Defined.

(** The calendar day of the time value [t], read as UTC, in the form
    YYYY-MM-DD. *)
Definition dayString (t : Z) : jsstring :=
  JsDate.digits 4 (JsDate.YearFromTime t) ++ js "-"
  ++ JsDate.digits 2 (JsDate.MonthFromTime t + 1) ++ js "-"
  ++ JsDate.digits 2 (JsDate.DateFromTime t).

(** The calendar day of the instant [t] in the local zone, in the form
    YYYY-MM-DD: the day [getFullYear], [getMonth] and [getDate] give. *)
Definition localDayString (LocalTZA : Z → bool → Z) (t : Z) : jsstring :=
  dayString (JsDate.LocalTime LocalTZA t).

(** The years whose ISO form has four digits. *)
Definition fourDigitYear (t : Z) : Prop := (0 ≤ JsDate.YearFromTime t ≤ 9999)%Z.

(** The values without a number whose objects have no key twice; the
    program's records are among them. *)
Fixpoint plain (v : Json.value) : Prop :=
  match v with
  | Json.JNull | Json.JBool _ | Json.JString _ => True
  | Json.JNumber _ => False
  | Json.JArray elements => foldr (λ e P, plain e ∧ P) True elements
  | Json.JObject properties =>
      NoDup properties.*1 ∧ foldr (λ p P, plain p.2 ∧ P) True properties
  end.

(** The [dates] array of [getStreak]. *)
Definition datesOf (habitId0 : jsstring) (completions : list App.Completion)
  : list jsstring :=
  reverse (merge_sort (λ a b, JsString.leb a b)
             (map App.date (filter (λ c, App.habitId c = habitId0) completions))).

(** Fuel that is enough to read a value back. *)
Fixpoint need (v : Json.value) : nat :=
  match v with
  | Json.JArray elements => S (foldr (λ e n, S (need e `max` n)) 0%nat elements)
  | Json.JObject properties =>
      S (foldr (λ p n, S (need p.2 `max` n)) 0%nat properties)
  | _ => 1
  end.

Definition needElements (elements : list Json.value) : nat :=
  foldr (λ e n, S (need e `max` n)) 0%nat elements.

Definition needMembers (properties : list (jsstring * Json.value)) : nat :=
  foldr (λ p n, S (need p.2 `max` n)) 0%nat properties.

(** The text of a plain value starts with the character that decides how
    it is read. *)
Definition opens (v : Json.value) (c : N) : Prop :=
  match v with
  | Json.JNull => c = 0x6E%N
  | Json.JBool true => c = 0x74%N
  | Json.JBool false => c = 0x66%N
  | Json.JNumber _ => False
  | Json.JString _ => c = 0x22%N
  | Json.JArray _ => c = 0x5B%N
  | Json.JObject _ => c = 0x7B%N
  end.

(** A value is read back from its text, whatever follows the text. *)
Definition readsBack (v : Json.value) : Prop :=
  plain v → ∀ fuel rest, (need v ≤ fuel)%nat →
  Json.parseValue fuel (Json.stringify v ++ rest) = Some (v, rest).

(** *** States the properties are tried on *)

(** A device two hours east of UTC, on the evening of 3 November 2026. *)
Definition exampleZone : Z → bool → Z := JsDate.fixedZone 120.
Definition exampleNow : Z := 1793730600000.

(** One habit, added from the input " Morning Run ". *)
Definition exampleState : App.State :=
  App.addHabit asciiLowerCase exampleNow (exampleNow + 1)
    (App.setInput (js " Morning Run ") (App.mount ∅)).

Definition exampleHabitId : jsstring := JsDate.numberToString exampleNow.

Definition exampleHabit : App.Habit :=
  {| App.id := js "1793730600000";
     App.name := js "Morning Run";
     App.createdAt := js "2026-11-03T18:30:00.001Z";
     App.videoId := Some (js "iSFpgQUGCVo");
     App.videoTitle := None;
     App.playlistId := Some (js "PLgzTt0k8mXzEk586ze4BjKDn2KKOIUmMX");
     App.playlistTitle := Some (js "Running Motivation Mix");
     App.playlistCategory := Some (js "Running");
     App.playlistEmoji := Some [0xD83C; 0xDFC3]%N;
     App.playlistColor := Some (js "#FFF7ED") |}.

(** The habit completed yesterday and the day before, not today. *)
Definition exampleCompletions : list App.Completion :=
  [ {| App.habitId := exampleHabitId; App.date := js "2026-11-02" |};
    {| App.habitId := exampleHabitId; App.date := js "2026-11-01" |} ].

Definition exampleTracked : App.State :=
  App.saveCompletions exampleCompletions exampleState.

(** ** App.tsx: the habit card and the week dots *)

Module HabitCard.

(** The two [useState] cells of a card: which media panel is open. *)
Record Panels := {
  showVideo : bool;
  showPlaylist : bool;
}.

Definition initial : Panels := {| showVideo := false; showPlaylist := false |}.

(** [setShowVideo((v) => !v); if (showPlaylist) setShowPlaylist(false)] *)
Definition toggleVideo (s : Panels) : Panels :=
  {| showVideo := negb (showVideo s);
     showPlaylist := if showPlaylist s then false else showPlaylist s |}.

(** [setShowPlaylist((v) => !v); if (showVideo) setShowVideo(false)] *)
Definition togglePlaylist (s : Panels) : Panels :=
  {| showVideo := if showVideo s then false else showVideo s;
     showPlaylist := negb (showPlaylist s) |}.

(** The two buttons of the action row. *)
Inductive Button := VideoButton | PlaylistButton.

Definition press (s : Panels) (b : Button) : Panels :=
  match b with
  | VideoButton => toggleVideo s
  | PlaylistButton => togglePlaylist s
  end.

(** [done] of the card: the habit has a completion dated [today]. *)
Definition done (habit : App.Habit) (completions : list App.Completion)
    (today : jsstring) : bool :=
  bool_decide (Exists (λ c, App.habitId c = App.id habit ∧ App.date c = today)
                 completions).


(** The truth value of a property: [undefined] and the empty string
    are falsy. *)
Definition truthyProperty (v : option jsstring) : bool :=
  match v with
  | Some s => JsString.truthy s
  | None => false
  end.

(** [habit.playlistCategory ? <pill> : null] *)
Definition pillVisible (habit : App.Habit) : bool :=
  truthyProperty (App.playlistCategory habit).

(** [habit.playlistColor || '#EEF2FF'] *)
Definition pillColor (habit : App.Habit) : jsstring :=
  match App.playlistColor habit with
  | Some color => if JsString.truthy color then color else js "#EEF2FF"
  | None => js "#EEF2FF"
  end.

(** [habit.playlistId ? <button> : null] *)
Definition playlistButtonVisible (habit : App.Habit) : bool :=
  truthyProperty (App.playlistId habit).

End HabitCard.

Module WeekDots.
Local Open Scope Z_scope.

Definition DAY_LABELS : list jsstring :=
  [js "M"; js "T"; js "W"; js "T"; js "F"; js "S"; js "S"].

(** One entry of [dots]; a [label] of [None] is [undefined]. *)
Record Dot := {
  date : jsstring;
  done : bool;
  label : option jsstring;
}.

(** [WeekDay(t)] of ECMAScript, what [getUTCDay] returns: 0 is Sunday. *)
Definition getUTCDay (t : Z) : Z := (JsDate.Day t + 4) `mod` 7.

(** [DAY_LABELS[dayIndex]]; an index outside the array gives
    [undefined]. *)
Definition labelAt (dayIndex : Z) : option jsstring :=
  if bool_decide (0 ≤ dayIndex) then DAY_LABELS !! Z.to_nat dayIndex else None.

Section Dots.
(** The local zone, and [new Date(s).getTime()] of the run time, [None]
    being an invalid date. *)
Variable LocalTZA : Z → bool → Z.
Variable DateParse : jsstring → option Z.

(** The callback of [days.map]. *)
Definition dot (habitId0 : jsstring) (completions : list App.Completion)
    (date0 : jsstring) : Dot :=
  let done0 :=
    bool_decide (Exists (λ c, App.habitId c = habitId0 ∧ App.date c = date0)
                   completions) in
  let label0 :=
    match DateParse date0 with
    | Some t => labelAt ((getUTCDay t + 6) `rem` 7)
    | None => None
    end in
  {| date := date0; done := done0; label := label0 |}.

Definition dots (habitId0 : jsstring) (completions : list App.Completion) (now : Z)
  : list Dot :=
  map (dot habitId0 completions) (App.lastNDays LocalTZA 7 now).
End Dots.

(** An instance of [DateParse]: the date-only form YYYY-MM-DD, read as
    UTC midnight; any other string is an invalid date here. *)
Definition digitValue (c : N) : option Z :=
  if bool_decide (0x30 ≤ c ≤ 0x39)%N then Some (Z.of_N c - 48) else None.

Fixpoint numeralValue (acc : Z) (s : jsstring) : option Z :=
  match s with
  | [] => Some acc
  | c :: s' => d ← digitValue c; numeralValue (10 * acc + d) s'
  end.

Definition parseIsoDay (s : jsstring) : option Z :=
  match s with
  | [y1; y2; y3; y4; 0x2D%N; m1; m2; 0x2D%N; d1; d2] =>
      y ← numeralValue 0 [y1; y2; y3; y4];
      m ← numeralValue 0 [m1; m2];
      d ← numeralValue 0 [d1; d2];
      Some (JsDate.MakeDate (JsDate.MakeDay y (m - 1) d) 0)
  | _ => None
  end.

End WeekDots.

(** ** More vocabulary *)

(** Every completion belongs to a habit of the collection. *)
Definition noOrphans (st : App.State) : Prop :=
  ∀ c, c ∈ App.completions st → ∃ h, h ∈ App.habits st ∧ App.id h = App.habitId c.

(** A record of the storage holds the text of the collection in memory,
    or is still missing while the collection is empty. *)
Definition mirrors {A} (stringify : list A → jsstring) (record : option jsstring)
    (collection : list A) : Prop :=
  record = Some (stringify collection) ∨ (record = None ∧ collection = []).

(** The storage mirrors both collections. *)
Definition persisted (st : App.State) : Prop :=
  mirrors App.stringifyHabits (App.storage st !! App.HABITS_KEY) (App.habits st)
  ∧ mirrors App.stringifyCompletions (App.storage st !! App.COMPLETIONS_KEY)
      (App.completions st).

(** One user action on the component. *)
Inductive Action :=
| TypeInput (text : jsstring)
| AddHabit (nowId nowCreated : Z)
| DeleteHabit (id0 : jsstring) (pressed : App.AlertButton)
| ToggleComplete (habitId0 : jsstring) (now : Z).

Definition act (toLowerCase : jsstring → jsstring) (st : App.State) (a : Action)
  : App.State :=
  match a with
  | TypeInput text => App.setInput text st
  | AddHabit nowId nowCreated => App.addHabit toLowerCase nowId nowCreated st
  | DeleteHabit id0 pressed => App.deleteHabit id0 pressed st
  | ToggleComplete habitId0 now => App.toggleComplete habitId0 now st
  end.

(** A zone whose clocks go forward by an hour: five hours west of UTC
    until 07:00 UTC on 8 March 2026, four hours west from then on.  A
    local time of the hour that is skipped is read with the offset
    before the change. *)
Definition springForwardZone : Z → bool → Z :=
  λ t isUTC,
    let change := 1772953200000%Z in
    let before := (-5 * JsDate.msPerHour)%Z in
    let after := (-4 * JsDate.msPerHour)%Z in
    if isUTC then (if (t <? change)%Z then before else after)
    else (if (t <? change + after)%Z then before else after).

(** * Part II: properties *)

(** ** Strings *)

Section StringFacts.
Import JsString.

Lemma startsWith_spec (s kw : jsstring) :
  startsWith s kw = true ↔ ∃ b, s = kw ++ b.
Proof.
  revert s. induction kw as [|k kw IH]; intros s; simpl.
  - split; [intros _; by exists s | done].
  - destruct s as [|c s].
    + split; [done | intros [b Hb]; discriminate].
    + rewrite andb_true_iff, bool_decide_eq_true, IH. split.
      * intros [-> [b ->]]. by exists b.
      * intros [b Hb]. injection Hb as -> ->. eauto.
Qed.

Lemma includes_spec (s kw : jsstring) :
  includes s kw = true ↔ occursIn kw s.
Proof.
  unfold occursIn. induction s as [|c s IH]; simpl.
  - rewrite orb_false_r, startsWith_spec. split.
    + intros [b Hb]. by exists [], b.
    + intros (a & b & Hab). symmetry in Hab.
      apply app_eq_nil in Hab as [-> Hab]. exists b. by rewrite Hab.
  - rewrite orb_true_iff, startsWith_spec, IH. split.
    + intros [[b Hb] | (a & b & Hab)].
      * by exists [], b.
      * exists (c :: a), b. by rewrite Hab.
    + intros (a & b & Hab). destruct a as [|c' a].
      * left. by exists b.
      * right. injection Hab as -> ->. by exists a, b.
Qed.

Lemma trimStart_spec (s : jsstring) :
  ∃ l, s = l ++ trimStart s ∧ Forall (λ c, isWhiteSpace c = true) l
       ∧ (∀ c, head (trimStart s) = Some c → isWhiteSpace c = false).
Proof.
  induction s as [|c s (l & Hs & Hl & Hh)]; simpl.
  - exists []. repeat split; [constructor | done].
  - destruct (isWhiteSpace c) eqn:Hc.
    + exists (c :: l). repeat split; [by rewrite Hs at 1 | by constructor | done].
    + exists []. repeat split; [constructor |]. by intros ? [= <-].
Qed.

Lemma trimStart_nil_iff (s : jsstring) :
  trimStart s = [] ↔ Forall (λ c, isWhiteSpace c = true) s.
Proof.
  induction s as [|c s IH]; simpl; [by split; [constructor|] |].
  destruct (isWhiteSpace c) eqn:Hc.
  - rewrite IH. split; [by constructor | by inversion 1].
  - split; [done | inversion 1; congruence].
Qed.

Lemma trimStart_id (s : jsstring) :
  (∀ c, head s = Some c → isWhiteSpace c = false) → trimStart s = s.
Proof. destruct s as [|c s]; simpl; [done |]. intros H. by rewrite (H c). Qed.

Lemma trimStart_suffix (s : jsstring) : trimStart s `suffix_of` s.
Proof. destruct (trimStart_spec s) as (l & Hs & _). by exists l. Qed.

(** [trim] removes a run of white space at each end and nothing else;
    what is left neither starts nor ends with white space. *)
Lemma trim_spec (s : jsstring) :
  ∃ l r, s = l ++ trim s ++ r
         ∧ Forall (λ c, isWhiteSpace c = true) l
         ∧ Forall (λ c, isWhiteSpace c = true) r
         ∧ (∀ c, head (trim s) = Some c → isWhiteSpace c = false)
         ∧ (∀ c, last (trim s) = Some c → isWhiteSpace c = false).
Proof.
  unfold trim, trimEnd.
  destruct (trimStart_spec s) as (l & Hs & Hl & Hh).
  destruct (trimStart_spec (reverse (trimStart s))) as (r & Hr & Hrw & Hrh).
  set (m := trimStart (reverse (trimStart s))) in *.
  assert (Hm : trimStart s = reverse m ++ reverse r).
  { by rewrite <-reverse_app, <-Hr, reverse_involutive. }
  exists l, (reverse r). repeat split.
  - by rewrite <-Hm.
  - done.
  - by apply Forall_reverse.
  - intros c Hc. destruct (reverse m) as [|c' m'] eqn:Hrev; [done |].
    apply Hh. rewrite Hm. simpl in *. done.
  - intros c Hc. rewrite last_reverse in Hc. by apply Hrh.
Qed.

Lemma trim_nil_iff (s : jsstring) :
  trim s = [] ↔ Forall (λ c, isWhiteSpace c = true) s.
Proof.
  unfold trim, trimEnd. split.
  - intros H. apply (f_equal reverse) in H.
    rewrite reverse_involutive, reverse_nil in H.
    apply trimStart_nil_iff, Forall_reverse in H.
    rewrite reverse_involutive in H.
    destruct (trimStart_spec s) as (l & Hs & Hl & _).
    rewrite Hs. by apply Forall_app.
  - intros H. apply trimStart_nil_iff in H. by rewrite H.
Qed.

Lemma truthy_false_iff (s : jsstring) : truthy s = false ↔ s = [].
Proof. by destruct s. Qed.

End StringFacts.

(** ** The suggestion tables *)

Section SuggestionFacts.
Variable toLowerCase : jsstring → jsstring.

Lemma video_matches_spec (lower : jsstring) (entry : Videos.VideoEntry) :
  Videos.matches lower entry = true ↔ keywordOccurs (Videos.keywords entry) lower.
Proof.
  unfold Videos.matches, keywordOccurs. rewrite existsb_exists.
  split; intros (kw & Hin & Hkw); exists kw.
  - by rewrite list_elem_of_In, <-includes_spec.
  - by rewrite <-list_elem_of_In, includes_spec.
Qed.

Lemma playlist_matches_spec (lower : jsstring) (entry : Playlists.PlaylistEntry) :
  Playlists.matches lower entry = true
  ↔ keywordOccurs (Playlists.keywords entry) lower.
Proof.
  unfold Playlists.matches, keywordOccurs. rewrite existsb_exists.
  split; intros (kw & Hin & Hkw); exists kw.
  - by rewrite list_elem_of_In, <-includes_spec.
  - by rewrite <-list_elem_of_In, includes_spec.
Qed.

(** The loop returns at the first entry that matches. *)
Lemma video_lookup_first (lower : jsstring) (entries : list Videos.VideoEntry) :
  (∃ before entry after,
      entries = before ++ entry :: after
      ∧ Forall (λ e, ¬ keywordOccurs (Videos.keywords e) lower) before
      ∧ keywordOccurs (Videos.keywords entry) lower
      ∧ Videos.lookup lower entries
        = {| Videos.suggestedVideoId := Videos.videoId entry;
             Videos.suggestedTitle := Videos.title entry |})
  ∨ (Forall (λ e, ¬ keywordOccurs (Videos.keywords e) lower) entries
     ∧ Videos.lookup lower entries = Videos.FALLBACK).
Proof.
  induction entries as [|e rest IH]; simpl.
  - right. split; first [done | by constructor].
  - destruct (Videos.matches lower e) eqn:He.
    + left. exists [], e, rest. apply video_matches_spec in He.
      split_and!; first [done | by constructor].
    + assert (¬ keywordOccurs (Videos.keywords e) lower) as Hne.
      { rewrite <-video_matches_spec. congruence. }
      destruct IH as [(before & entry & after & -> & Hb & Hm & Hr) | [Hall Hr]].
      * left. exists (e :: before), entry, after.
        split_and!; first [done | by constructor].
      * right. split; first [done | by constructor].
Qed.

Lemma playlist_lookup_first (lower : jsstring) (entries : list Playlists.PlaylistEntry) :
  (∃ before entry after,
      entries = before ++ entry :: after
      ∧ Forall (λ e, ¬ keywordOccurs (Playlists.keywords e) lower) before
      ∧ keywordOccurs (Playlists.keywords entry) lower
      ∧ Playlists.lookup lower entries = entry)
  ∨ (Forall (λ e, ¬ keywordOccurs (Playlists.keywords e) lower) entries
     ∧ Playlists.lookup lower entries = Playlists.FALLBACK).
Proof.
  induction entries as [|e rest IH]; simpl.
  - right. split; first [done | by constructor].
  - destruct (Playlists.matches lower e) eqn:He.
    + left. exists [], e, rest. apply playlist_matches_spec in He.
      split_and!; first [done | by constructor].
    + assert (¬ keywordOccurs (Playlists.keywords e) lower) as Hne.
      { rewrite <-playlist_matches_spec. congruence. }
      destruct IH as [(before & entry & after & -> & Hb & Hm & Hr) | [Hall Hr]].
      * left. exists (e :: before), entry, after.
        split_and!; first [done | by constructor].
      * right. split; first [done | by constructor].
Qed.

(** What [toLowerCase] does to a name of ASCII characters. *)
Hypothesis toLowerCase_ascii :
  ∀ s, Forall JsString.isAscii s → toLowerCase s = asciiLowerCase s.

(** C7.  Both lookups match the lower-cased name against the keyword
    sets in table order: the result is the suggestion of the first
    entry one of whose keywords occurs in the lower-cased name, no
    entry before it having such a keyword, and the fixed fallback when
    no entry has one; either way there is a result.  Names with the
    same lower-case form get the same suggestions.  For "Morning Run"
    both tables answer with their running entry, found through the
    keyword "run", although the keyword "morning" of a later entry
    occurs in the name as well. *)
Theorem suggestion_first_match_wins :
  (∀ name,
      ((∃ before entry after,
           Videos.VIDEO_MAP = before ++ entry :: after
           ∧ Forall (λ e, ¬ keywordOccurs (Videos.keywords e) (toLowerCase name)) before
           ∧ keywordOccurs (Videos.keywords entry) (toLowerCase name)
           ∧ Videos.suggestVideo toLowerCase name
             = {| Videos.suggestedVideoId := Videos.videoId entry;
                  Videos.suggestedTitle := Videos.title entry |})
       ∨ (Forall (λ e, ¬ keywordOccurs (Videos.keywords e) (toLowerCase name))
            Videos.VIDEO_MAP
          ∧ Videos.suggestVideo toLowerCase name = Videos.FALLBACK))
      ∧ ((∃ before entry after,
             Playlists.PLAYLIST_MAP = before ++ entry :: after
             ∧ Forall (λ e, ¬ keywordOccurs (Playlists.keywords e) (toLowerCase name))
                 before
             ∧ keywordOccurs (Playlists.keywords entry) (toLowerCase name)
             ∧ Playlists.suggestPlaylist toLowerCase name = entry)
         ∨ (Forall (λ e, ¬ keywordOccurs (Playlists.keywords e) (toLowerCase name))
              Playlists.PLAYLIST_MAP
            ∧ Playlists.suggestPlaylist toLowerCase name = Playlists.FALLBACK)))
  ∧ (∀ name name',
        toLowerCase name = toLowerCase name' →
        Videos.suggestVideo toLowerCase name = Videos.suggestVideo toLowerCase name'
        ∧ Playlists.suggestPlaylist toLowerCase name
          = Playlists.suggestPlaylist toLowerCase name')
  ∧ (∃ running morning i j,
        Videos.VIDEO_MAP !! i = Some running
        ∧ Videos.VIDEO_MAP !! j = Some morning
        ∧ (i < j)%nat
        ∧ js "run" ∈ Videos.keywords running
        ∧ js "morning" ∈ Videos.keywords morning
        ∧ occursIn (js "morning") (toLowerCase (js "Morning Run"))
        ∧ Videos.suggestVideo toLowerCase (js "Morning Run")
          = {| Videos.suggestedVideoId := Videos.videoId running;
               Videos.suggestedTitle := Videos.title running |})
  ∧ (∃ running morning i j,
        Playlists.PLAYLIST_MAP !! i = Some running
        ∧ Playlists.PLAYLIST_MAP !! j = Some morning
        ∧ (i < j)%nat
        ∧ js "run" ∈ Playlists.keywords running
        ∧ js "morning" ∈ Playlists.keywords morning
        ∧ occursIn (js "morning") (toLowerCase (js "Morning Run"))
        ∧ Playlists.suggestPlaylist toLowerCase (js "Morning Run") = running).
Proof.
  assert (Hname : toLowerCase (js "Morning Run") = js "morning run").
  { rewrite toLowerCase_ascii; [done |].
    apply Forall_forall. intros c Hc. unfold JsString.isAscii.
    apply list_elem_of_In in Hc. vm_compute in Hc.
    repeat destruct Hc as [<- | Hc]; done. }
  split; [| split; [| split]].
  - intros name. split.
    + apply video_lookup_first.
    + apply playlist_lookup_first.
  - intros name name' Heq. unfold Videos.suggestVideo, Playlists.suggestPlaylist.
    by rewrite Heq.
  - eexists _, _, 1%nat, 5%nat. unfold Videos.suggestVideo. rewrite Hname.
    repeat split; try reflexivity.
    + lia.
    + apply list_elem_of_In. vm_compute. tauto.
    + apply list_elem_of_In. vm_compute. tauto.
    + by exists [], (js " run").
  - eexists _, _, 2%nat, 6%nat. unfold Playlists.suggestPlaylist. rewrite Hname.
    repeat split; try reflexivity.
    + lia.
    + apply list_elem_of_In. vm_compute. tauto.
    + apply list_elem_of_In. vm_compute. tauto.
    + by exists [], (js " run").
Qed.

End SuggestionFacts.

Lemma suggestion_first_match_wins_witness :
  (∀ s, Forall JsString.isAscii s → asciiLowerCase s = asciiLowerCase s)
  ∧ ∃ running morning i j,
      Playlists.PLAYLIST_MAP !! i = Some running
      ∧ Playlists.PLAYLIST_MAP !! j = Some morning
      ∧ (i < j)%nat
      ∧ js "run" ∈ Playlists.keywords running
      ∧ js "morning" ∈ Playlists.keywords morning
      ∧ occursIn (js "morning") (asciiLowerCase (js "Morning Run"))
      ∧ Playlists.suggestPlaylist asciiLowerCase (js "Morning Run") = running.
Proof.
  split; [done |].
  exact (proj2 (proj2 (proj2
    (suggestion_first_match_wins asciiLowerCase (λ s _, eq_refl))))).
Defined.

(** ** The streak engine *)

Section StreakFacts.
Variable LocalTZA : Z → bool → Z.
Local Open Scope Z_scope.

Implicit Types (dates : list jsstring) (completions : list App.Completion).

Lemma datesOf_elem habitId0 completions d :
  d ∈ datesOf habitId0 completions ↔ completedOn habitId0 completions d.
Proof.
  unfold datesOf, completedOn.
  rewrite elem_of_reverse, merge_sort_Permutation, list_elem_of_fmap.
  split.
  - intros (c & -> & Hc). apply list_elem_of_filter in Hc as [Hh Hc]. eauto.
  - intros (c & Hc & Hh & Hd). exists c. split; [done |].
    by apply list_elem_of_filter.
Qed.

Lemma datesOf_empty habitId0 completions :
  length (datesOf habitId0 completions) = 0%nat
  ↔ ∀ d, ¬ completedOn habitId0 completions d.
Proof.
  rewrite length_zero_iff_nil. split.
  - intros Hnil d Hd. apply datesOf_elem in Hd. rewrite Hnil in Hd.
    by apply not_elem_of_nil in Hd.
  - intros Hnone. destruct (datesOf habitId0 completions) as [|d ds] eqn:Hds; [done |].
    destruct (Hnone d). apply datesOf_elem. rewrite Hds. left.
Qed.

Lemma getStreak_unfold habitId0 completions now :
  App.getStreak LocalTZA habitId0 completions now
  = if bool_decide (length (datesOf habitId0 completions) = 0%nat) then 0
    else App.streakLoop LocalTZA (datesOf habitId0 completions) 365 0 now 0.
Proof. reflexivity. Qed.

(** The loop sees [dates] through membership only. *)
Lemma streakLoop_ext dates1 dates2 n i cur streak :
  (∀ d, d ∈ dates1 ↔ d ∈ dates2) →
  App.streakLoop LocalTZA dates1 n i cur streak
  = App.streakLoop LocalTZA dates2 n i cur streak.
Proof.
  intros Hd. revert i cur streak. induction n as [|n IH]; intros i cur streak; simpl.
  - done.
  - rewrite (bool_decide_ext _ _ (Hd _)). by rewrite !IH.
Qed.

(** The streak is a function of the set of days on which the habit
    has a completion. *)
Lemma getStreak_ext habitId0 completions1 completions2 now :
  (∀ d, completedOn habitId0 completions1 d ↔ completedOn habitId0 completions2 d) →
  App.getStreak LocalTZA habitId0 completions1 now
  = App.getStreak LocalTZA habitId0 completions2 now.
Proof.
  intros Hd. rewrite !getStreak_unfold.
  assert (length (datesOf habitId0 completions1) = 0%nat
          ↔ length (datesOf habitId0 completions2) = 0%nat) as Hlen.
  { rewrite !datesOf_empty. split; intros H d; specialize (H d); by rewrite ?Hd in *. }
  rewrite (bool_decide_ext _ _ Hlen).
  case_bool_decide; [done |].
  apply streakLoop_ext. intros d. by rewrite !datesOf_elem.
Qed.

Lemma walkDate_succ now k :
  walkDate LocalTZA now (S k) = App.daysBack LocalTZA 1 (walkDate LocalTZA now k).
Proof. reflexivity. Qed.

(** After offset 0 the loop counts the days with a completion up to
    the first day without one, or to the end of its iterations. *)
Lemma streakLoop_count dates now n off i streak :
  0 < i →
  ∃ k : nat,
    (k ≤ n)%nat
    ∧ (∀ j, (j < k)%nat → walkDay LocalTZA now (off + j) ∈ dates)
    ∧ ((k < n)%nat → walkDay LocalTZA now (off + k) ∉ dates)
    ∧ App.streakLoop LocalTZA dates n i (walkDate LocalTZA now off) streak
      = streak + Z.of_nat k.
Proof.
  revert off i streak. induction n as [|n IH]; intros off i streak Hi; simpl.
  - exists 0%nat. split_and!; [lia | lia | lia | lia].
  - fold (walkDay LocalTZA now off). rewrite <-walkDate_succ.
    case_bool_decide as Hin.
    + destruct (IH (S off) (i + 1) (streak + 1)) as (k & Hk & Hall & Hstop & Heq);
        [lia |].
      exists (S k). split_and!.
      * lia.
      * intros [|j] Hj; [by rewrite Nat.add_0_r |].
        rewrite <-Nat.add_succ_comm. apply Hall. lia.
      * intros Hlt. rewrite <-Nat.add_succ_comm. apply Hstop. lia.
      * rewrite Heq. lia.
    + rewrite bool_decide_eq_false_2 by lia.
      exists 0%nat. split_and!; [lia | lia | by rewrite Nat.add_0_r | lia].
Qed.

Lemma specWalk_ext completed1 completed2 horizon offset :
  (∀ k, completed1 k = completed2 k) →
  specWalk completed1 horizon offset = specWalk completed2 horizon offset.
Proof.
  intros Hc. revert offset. induction horizon as [|h IH]; intros offset; simpl.
  - done.
  - by rewrite Hc, !IH.
Qed.

(** The loop of the code against the walk of the specification. *)
Lemma streakLoop_specWalk dates now n off streak :
  App.streakLoop LocalTZA dates n (Z.of_nat off) (walkDate LocalTZA now off) streak
  = streak + specWalk (λ k, bool_decide (walkDay LocalTZA now k ∈ dates)) n off.
Proof.
  revert off streak. induction n as [|n IH]; intros off streak; simpl.
  - lia.
  - fold (walkDay LocalTZA now off). rewrite <-walkDate_succ.
    replace (Z.of_nat off + 1) with (Z.of_nat (S off)) by lia.
    rewrite !IH.
    rewrite (bool_decide_ext (Z.of_nat off = 0) (off = 0%nat)) by lia.
    repeat case_bool_decide; first [lia | done].
Qed.

Lemma streakLoop_bounds dates n i cur streak :
  streak ≤ App.streakLoop LocalTZA dates n i cur streak ≤ streak + Z.of_nat n.
Proof.
  revert i cur streak. induction n as [|n IH]; intros i cur streak; simpl.
  - lia.
  - repeat case_bool_decide.
    + specialize (IH (i + 1) (App.daysBack LocalTZA 1 cur) (streak + 1)). lia.
    + specialize (IH (i + 1) (App.daysBack LocalTZA 1 cur) streak). lia.
    + lia.
Qed.

End StreakFacts.

Section StreakTheorems.
Variable LocalTZA : Z → bool → Z.
Local Open Scope Z_scope.

Lemma specWalk_none completed horizon offset :
  (∀ k, completed k = false) → specWalk completed horizon offset = 0.
Proof.
  intros Hc. revert offset. induction horizon as [|h IH]; intros offset; simpl.
  - done.
  - rewrite Hc, IH. by case_bool_decide.
Qed.

Lemma streakLoop_S dates n i cur streak :
  App.streakLoop LocalTZA dates (S n) i cur streak
  = if bool_decide (JsDate.slice0 10 (JsDate.toISOString cur) ∈ dates)
    then App.streakLoop LocalTZA dates n (i + 1) (App.daysBack LocalTZA 1 cur)
           (streak + 1)
    else if bool_decide (i = 0)
    then App.streakLoop LocalTZA dates n (i + 1) (App.daysBack LocalTZA 1 cur) streak
    else streak.
Proof. reflexivity. Qed.

Lemma walkDay_0 now :
  walkDay LocalTZA now 0 = JsDate.slice0 10 (JsDate.toISOString now).
Proof. reflexivity. Qed.

(** The first iteration, at offset 0. *)
Lemma streakLoop_first dates n now :
  App.streakLoop LocalTZA dates (S n) 0 now 0
  = if bool_decide (walkDay LocalTZA now 0 ∈ dates)
    then App.streakLoop LocalTZA dates n 1 (walkDate LocalTZA now 1) 1
    else App.streakLoop LocalTZA dates n 1 (walkDate LocalTZA now 1) 0.
Proof.
  rewrite streakLoop_S.
  rewrite (bool_decide_eq_true_2 (0 = 0)) by done.
  rewrite walkDate_succ, walkDay_0.
  replace (0 + 1) with 1 by done.
  reflexivity.
Qed.

Lemma getStreak_specWalk habitId0 completions now :
  App.getStreak LocalTZA habitId0 completions now
  = specWalk
      (λ k, bool_decide (completedOn habitId0 completions (walkDay LocalTZA now k)))
      365 0.
Proof.
  rewrite getStreak_unfold. case_bool_decide as Hlen.
  - rewrite specWalk_none; [done |]. intros k. apply bool_decide_eq_false_2.
    by apply datesOf_empty.
  - change now with (walkDate LocalTZA now 0) at 1.
    rewrite (streakLoop_specWalk LocalTZA _ now 365 0 0), Z.add_0_l.
    apply specWalk_ext. intros k. apply bool_decide_ext, datesOf_elem.
Qed.

Lemma getStreak_count habitId0 completions now :
  ∃ k : nat,
    (1 ≤ k ≤ 365)%nat
    ∧ (∀ i, (1 ≤ i < k)%nat →
            completedOn habitId0 completions (walkDay LocalTZA now i))
    ∧ ((k < 365)%nat → ¬ completedOn habitId0 completions (walkDay LocalTZA now k))
    ∧ (completedOn habitId0 completions (walkDay LocalTZA now 0) →
       App.getStreak LocalTZA habitId0 completions now = Z.of_nat k)
    ∧ (¬ completedOn habitId0 completions (walkDay LocalTZA now 0) →
       App.getStreak LocalTZA habitId0 completions now = Z.of_nat k - 1).
Proof.
  rewrite getStreak_unfold. case_bool_decide as Hlen.
  - rewrite datesOf_empty in Hlen. exists 1%nat. split_and!.
    + lia.
    + lia.
    + lia.
    + intros _. apply Hlen.
    + intros H0. by destruct (Hlen _ H0).
    + done.
  - set (dates := datesOf habitId0 completions).
    assert (∀ k, walkDay LocalTZA now k ∈ dates
                 ↔ completedOn habitId0 completions (walkDay LocalTZA now k)) as Hel.
    { intros k. apply datesOf_elem. }
    rewrite streakLoop_first.
    rewrite (bool_decide_ext _ _ (Hel 0%nat)).
    case_bool_decide as H0.
    + destruct (streakLoop_count LocalTZA dates now 364 1 1 1)
        as (k & Hk & Hall & Hstop & ->); [lia |].
      exists (S k). split_and!.
      * lia.
      * lia.
      * intros i Hi. apply Hel. replace i with (1 + (i - 1))%nat by lia.
        apply Hall. lia.
      * intros Hlt. rewrite <-Hel. apply Hstop. lia.
      * lia.
      * done.
    + destruct (streakLoop_count LocalTZA dates now 364 1 1 0)
        as (k & Hk & Hall & Hstop & ->); [lia |].
      exists (S k). split_and!.
      * lia.
      * lia.
      * intros i Hi. apply Hel. replace i with (1 + (i - 1))%nat by lia.
        apply Hall. lia.
      * intros Hlt. rewrite <-Hel. apply Hstop. lia.
      * done.
      * lia.
Qed.

(** Over the days its own steps read, [getStreak] computes the walk of
    the specification: there is an offset [k] between 1 and 365 up to
    which every day read from offset 1 on is completed and at which,
    if it is inside the horizon, the day read is not, and the result
    is [k] when the day read first is completed and [k - 1] when it is
    not; the result lies between 0 and 365.  Which days the steps
    read depends on the zone. *)
Lemma getStreak_own_days habitId0 completions now :
  let completed k := completedOn habitId0 completions (walkDay LocalTZA now k) in
  let streak := App.getStreak LocalTZA habitId0 completions now in
  streak = specWalk (λ k, bool_decide (completed k)) 365 0
  ∧ (∃ k : nat,
        (1 ≤ k ≤ 365)%nat
        ∧ (∀ i, (1 ≤ i < k)%nat → completed i)
        ∧ ((k < 365)%nat → ¬ completed k)
        ∧ (completed 0%nat → streak = Z.of_nat k)
        ∧ (¬ completed 0%nat → streak = Z.of_nat k - 1))
  ∧ 0 ≤ streak ≤ 365
  ∧ (¬ completed 0%nat → completed 1%nat → completed 2%nat → ¬ completed 3%nat →
     streak = 2).
Proof.
  intros completed streak. refine (conj _ (conj _ (conj _ _))).
  - apply getStreak_specWalk.
  - apply getStreak_count.
  - unfold streak. rewrite getStreak_unfold. case_bool_decide; [lia |].
    pose proof (streakLoop_bounds LocalTZA (datesOf habitId0 completions)
                  365 0 now 0). lia.
  - intros H0 H1 H2 H3.
    destruct (getStreak_count habitId0 completions now)
      as (k & Hk & Hall & Hstop & _ & Heq).
    unfold streak. rewrite (Heq H0).
    destruct (decide (k = 3%nat)) as [-> | Hne]; [done |].
    destruct (decide (k < 3)%nat) as [Hlt | Hge].
    + destruct (Hstop ltac:(lia)).
      assert (k = 1 ∨ k = 2)%nat as [-> | ->] by lia; done.
    + destruct H3. apply Hall. lia.
Qed.

(** C10.  The streak of a habit depends on the collection only through
    the set of days on which that habit has a completion: two
    collections that agree on it give the same streak.  So a
    completion of another habit, a second copy of a completion and the
    order of the collection change nothing. *)
Theorem getStreak_depends_on_dates habitId0 now :
  (∀ completions1 completions2,
      (∀ d, completedOn habitId0 completions1 d ↔ completedOn habitId0 completions2 d) →
      App.getStreak LocalTZA habitId0 completions1 now
      = App.getStreak LocalTZA habitId0 completions2 now)
  ∧ (∀ completions other pre,
        App.habitId other ≠ habitId0 →
        App.getStreak LocalTZA habitId0 (pre ++ other :: completions) now
        = App.getStreak LocalTZA habitId0 (pre ++ completions) now)
  ∧ (∀ completions c,
        c ∈ completions →
        App.getStreak LocalTZA habitId0 (c :: completions) now
        = App.getStreak LocalTZA habitId0 completions now)
  ∧ (∀ completions1 completions2,
        completions1 ≡ₚ completions2 →
        App.getStreak LocalTZA habitId0 completions1 now
        = App.getStreak LocalTZA habitId0 completions2 now).
Proof.
  refine (conj _ (conj _ (conj _ _))).
  - intros completions1 completions2. apply getStreak_ext.
  - intros completions other pre Hother. apply getStreak_ext. intros d.
    unfold completedOn. split; intros (c & Hc & Hh & Hd); exists c; (split; [| done]).
    + rewrite elem_of_app, elem_of_cons in Hc. rewrite elem_of_app.
      destruct Hc as [Hc | [-> | Hc]]; [by left | done | by right].
    + rewrite elem_of_app in Hc. rewrite elem_of_app, elem_of_cons. tauto.
  - intros completions c Hc. apply getStreak_ext. intros d.
    unfold completedOn. split; intros (c' & Hc' & Hh & Hd); exists c'; (split; [| done]).
    + apply elem_of_cons in Hc' as [-> | Hc']; done.
    + by right.
  - intros completions1 completions2 Hperm. apply getStreak_ext. intros d.
    unfold completedOn. by setoid_rewrite Hperm.
Qed.

End StreakTheorems.

(** ** The completion toggle *)

Section ToggleFacts.
Import App.

Implicit Types (st : State) (c : Completion).

Lemma completedOn_Exists habitId0 (cs : list Completion) d :
  Exists (λ c, habitId c = habitId0 ∧ date c = d) cs ↔ completedOn habitId0 cs d.
Proof. unfold completedOn. rewrite Exists_exists. naive_solver. Qed.

Lemma completion_eta c habitId0 d :
  habitId c = habitId0 ∧ date c = d ↔ c = {| habitId := habitId0; date := d |}.
Proof. destruct c; simpl. split; [by intros [-> ->] | by intros [= -> ->]]. Qed.

Lemma completions_saveCompletions updated st :
  completions (saveCompletions updated st) = updated.
Proof. reflexivity. Qed.

Lemma toggleComplete_already habitId0 now st :
  completedOn habitId0 (completions st) (todayStr now) →
  completions (toggleComplete habitId0 now st)
  = filter (λ c, ¬ (habitId c = habitId0 ∧ date c = todayStr now)) (completions st).
Proof.
  intros Hal. unfold toggleComplete. rewrite completions_saveCompletions.
  by rewrite bool_decide_eq_true_2 by by apply completedOn_Exists.
Qed.

Lemma toggleComplete_fresh habitId0 now st :
  ¬ completedOn habitId0 (completions st) (todayStr now) →
  completions (toggleComplete habitId0 now st)
  = completions st ++ [{| habitId := habitId0; date := todayStr now |}].
Proof.
  intros Hal. unfold toggleComplete. rewrite completions_saveCompletions.
  by rewrite bool_decide_eq_false_2 by by rewrite completedOn_Exists.
Qed.

(** Filtering out a pair that does not occur changes nothing. *)
Lemma filter_absent habitId0 d (cs : list Completion) :
  ¬ completedOn habitId0 cs d →
  filter (λ c, ¬ (habitId c = habitId0 ∧ date c = d)) cs = cs.
Proof.
  intros Hn. induction cs as [|c cs IH]; [done |].
  rewrite filter_cons_True.
  - f_equal. apply IH. intros (c' & Hc' & H'). apply Hn. exists c'.
    split; [by right | done].
  - intros Hc. apply Hn. exists c. split; [by left | done].
Qed.

Lemma filter_pair_absent habitId0 d (cs : list Completion) :
  ¬ completedOn habitId0 cs d →
  filter (λ c, habitId c = habitId0 ∧ date c = d) cs = [].
Proof.
  intros Hn. induction cs as [|c cs IH]; [done |].
  rewrite filter_cons_False.
  - apply IH. intros (c' & Hc' & H'). apply Hn. exists c'. split; [by right | done].
  - intros Hc. apply Hn. exists c. split; [by left | done].
Qed.

Lemma filter_removes habitId0 d (cs : list Completion) :
  ¬ completedOn habitId0
      (filter (λ c, ¬ (habitId c = habitId0 ∧ date c = d)) cs) d.
Proof.
  intros (c & Hc & Hh & Hd). apply list_elem_of_filter in Hc as [Hn _]. by apply Hn.
Qed.

(** Two toggles on one day give back a collection with the same
    members. *)
Lemma double_toggle_elem habitId0 now1 now2 st c :
  todayStr now1 = todayStr now2 →
  c ∈ completions (toggleComplete habitId0 now2 (toggleComplete habitId0 now1 st))
  ↔ c ∈ completions st.
Proof.
  intros Hday. set (t := todayStr now1) in *.
  destruct (decide (completedOn habitId0 (completions st) t)) as [Hal | Hfresh].
  - rewrite toggleComplete_fresh; rewrite toggleComplete_already by done.
    2: { rewrite <-Hday. apply filter_removes. }
    rewrite <-Hday. fold t.
    rewrite elem_of_app, list_elem_of_filter, list_elem_of_singleton.
    rewrite completion_eta. split.
    + intros [[_ Hc] | ->]; [done |].
      destruct Hal as (c' & Hc' & Hp). apply completion_eta in Hp. by subst c'.
    + intros Hc. destruct (decide (c = {| habitId := habitId0; date := t |}));
        [by right | by left].
  - rewrite toggleComplete_already; rewrite toggleComplete_fresh by done.
    2: { rewrite <-Hday. fold t. exists {| habitId := habitId0; date := t |}.
         split; [| done]. apply elem_of_app. right. left. }
    rewrite <-Hday. fold t. rewrite filter_app, filter_absent by done.
    rewrite filter_cons_False, filter_nil, app_nil_r; [done |].
    simpl. intros Hn. by apply Hn.
Qed.

Lemma atMostOnePerDay_filter (P : Completion → Prop) `{!∀ c, Decision (P c)}
    (cs : list Completion) :
  atMostOnePerDay cs → atMostOnePerDay (filter P cs).
Proof.
  intros Hinv habitId0 d. specialize (Hinv habitId0 d).
  rewrite list_filter_filter.
  etrans; [| apply Hinv]. clear Hinv.
  induction cs as [|c cs IH]; [done |].
  rewrite !filter_cons.
  destruct (decide ((habitId c = habitId0 ∧ date c = d) ∧ P c)) as [[Hc _] | Hn].
  - rewrite decide_True by done. simpl. lia.
  - case_decide; simpl; lia.
Qed.

End ToggleFacts.

Section TransitionTheorems.
Import App.
Variable toLowerCase : jsstring → jsstring.
Variable LocalTZA : Z → bool → Z.

Implicit Types (st : State) (c : Completion) (h : Habit).

(** C2.  With [t] today's day string: when the collection has a
    completion of the habit for [t], [toggleComplete] leaves the
    collection without every such completion and with all the others,
    in their order; when it has none, it appends the completion of the
    habit for [t].  The habits and the input are not touched, the new
    collection is written to storage, and no condition is put on the
    habit id: it need not belong to a habit. *)
Theorem toggleComplete_flips habitId0 now st :
  let t := todayStr now in
  let st' := toggleComplete habitId0 now st in
  (completedOn habitId0 (completions st) t →
     completions st'
     = filter (λ c, c ≠ {| habitId := habitId0; date := t |}) (completions st)
     ∧ ¬ completedOn habitId0 (completions st') t
     ∧ ∀ c, c ∈ completions st'
            ↔ c ∈ completions st ∧ c ≠ {| habitId := habitId0; date := t |})
  ∧ (¬ completedOn habitId0 (completions st) t →
     completions st' = completions st ++ [{| habitId := habitId0; date := t |}])
  ∧ habits st' = habits st
  ∧ input st' = input st
  ∧ storage st'
    = <[COMPLETIONS_KEY := stringifyCompletions (completions st')]> (storage st).
Proof.
  intros t st'. refine (conj _ (conj _ (conj _ (conj _ _)))); try reflexivity.
  - intros Hal. unfold st'. rewrite toggleComplete_already by done. fold t.
    assert (filter (λ c, ¬ (habitId c = habitId0 ∧ date c = t)) (completions st)
            = filter (λ c, c ≠ {| habitId := habitId0; date := t |}) (completions st))
      as Heq.
    { apply list_filter_iff. intros c. by rewrite completion_eta. }
    refine (conj Heq (conj _ _)).
    + apply filter_removes.
    + intros c. rewrite Heq. by rewrite list_elem_of_filter, (comm and).
  - intros Hfresh. by apply toggleComplete_fresh.
Qed.

(** C3.  A collection with at most one completion per habit and day
    still has at most one after a toggle, after a deletion, whichever
    button closes its dialog, and after the creation of a habit, which
    leaves the collection as it is. *)
Theorem atMostOnePerDay_preserved st :
  atMostOnePerDay (completions st) →
  (∀ habitId0 now, atMostOnePerDay (completions (toggleComplete habitId0 now st)))
  ∧ (∀ id0 pressed, atMostOnePerDay (completions (deleteHabit id0 pressed st)))
  ∧ (∀ nowId nowCreated,
        completions (addHabit toLowerCase nowId nowCreated st) = completions st
        ∧ atMostOnePerDay (completions (addHabit toLowerCase nowId nowCreated st))).
Proof.
  intros Hinv. refine (conj _ (conj _ _)).
  - intros habitId0 now.
    destruct (decide (completedOn habitId0 (completions st) (todayStr now)))
      as [Hal | Hfresh].
    + rewrite toggleComplete_already by done. by apply atMostOnePerDay_filter.
    + rewrite toggleComplete_fresh by done. intros habitId1 d.
      rewrite filter_app, length_app.
      destruct (decide (habitId1 = habitId0 ∧ d = todayStr now)) as [[-> ->] | Hne].
      * rewrite filter_pair_absent by done.
        rewrite filter_cons_True by done. simpl. lia.
      * rewrite filter_cons_False by (simpl; intros [<- <-]; by apply Hne).
        simpl. specialize (Hinv habitId1 d). lia.
  - intros id0 [|]; simpl; [done |]. by apply atMostOnePerDay_filter.
  - intros nowId nowCreated.
    assert (completions (addHabit toLowerCase nowId nowCreated st) = completions st)
      as Heq.
    { unfold addHabit. by destruct (negb _). }
    by rewrite Heq.
Qed.

(** C4.  Two toggles of one habit on one day give a collection on
    which the streak of the habit is what it was before them. *)
Theorem double_toggle_keeps_streak habitId0 now1 now2 now st :
  todayStr now1 = todayStr now2 →
  getStreak LocalTZA habitId0
    (completions (toggleComplete habitId0 now2 (toggleComplete habitId0 now1 st))) now
  = getStreak LocalTZA habitId0 (completions st) now.
Proof.
  intros Hday. apply getStreak_ext. intros d. unfold completedOn.
  by setoid_rewrite (double_toggle_elem habitId0 now1 now2 st _ Hday).
Qed.

(** C5.  Once the deletion of a habit of the collection is confirmed,
    no habit with its id is left and every habit with another id is
    kept, in the order the collection had; no completion of that id is
    left and every completion of another habit is kept, in the order
    the collection had; both collections are written to storage.
    When the dialog is cancelled nothing changes. *)
Theorem deleteHabit_cascades h0 st :
  let st' := deleteHabit (id h0) Delete st in
  h0 ∈ habits st →
  (h0 ∉ habits st')
  ∧ (∀ h, h ∈ habits st' ↔ h ∈ habits st ∧ id h ≠ id h0)
  ∧ (∀ c, c ∈ completions st' ↔ c ∈ completions st ∧ habitId c ≠ id h0)
  ∧ habits st' = filter (λ h, id h ≠ id h0) (habits st)
  ∧ completions st' = filter (λ c, habitId c ≠ id h0) (completions st)
  ∧ filter (λ h, id h ≠ id h0) (habits st') = filter (λ h, id h ≠ id h0) (habits st)
  ∧ filter (λ c, habitId c ≠ id h0) (completions st')
    = filter (λ c, habitId c ≠ id h0) (completions st)
  ∧ input st' = input st
  ∧ storage st'
    = <[COMPLETIONS_KEY := stringifyCompletions (completions st')]>
        (<[HABITS_KEY := stringifyHabits (habits st')]> (storage st))
  ∧ deleteHabit (id h0) Cancel st = st.
Proof.
  intros st' Hin.
  assert (habits st' = filter (λ h, id h ≠ id h0) (habits st)) as Hh by reflexivity.
  assert (completions st' = filter (λ c, habitId c ≠ id h0) (completions st))
    as Hc by reflexivity.
  refine (conj _ (conj _ (conj _ (conj Hh (conj Hc (conj _ (conj _ _))))))).
  - rewrite Hh, list_elem_of_filter. by intros [Hne _].
  - intros h. by rewrite Hh, list_elem_of_filter, (comm and).
  - intros c. by rewrite Hc, list_elem_of_filter, (comm and).
  - rewrite Hh, list_filter_filter. apply list_filter_iff. tauto.
  - rewrite Hc, list_filter_filter. apply list_filter_iff. tauto.
  - by repeat split.
Qed.

(** C6.  When the input is empty or nothing but white space,
    [addHabit] returns the state it was given: no habit, no write, the
    input still there.  Otherwise it appends one habit whose name is
    the trimmed input, leaves the completions alone, writes the new
    habit collection and clears the input. *)
Theorem addHabit_validates nowId nowCreated st :
  let st' := addHabit toLowerCase nowId nowCreated st in
  (Forall (λ u, JsString.isWhiteSpace u = true) (input st) → st' = st)
  ∧ (¬ Forall (λ u, JsString.isWhiteSpace u = true) (input st) →
     ∃ habit,
       habits st' = habits st ++ [habit]
       ∧ name habit = JsString.trim (input st)
       ∧ name habit ≠ []
       ∧ id habit = JsDate.numberToString nowId
       ∧ createdAt habit = JsDate.toISOString nowCreated
       ∧ completions st' = completions st
       ∧ input st' = []
       ∧ storage st' = <[HABITS_KEY := stringifyHabits (habits st')]> (storage st)).
Proof.
  intros st'. unfold st', addHabit. split.
  - intros Hws. apply trim_nil_iff in Hws. by rewrite Hws.
  - intros Hws. rewrite <-trim_nil_iff in Hws.
    destruct (JsString.trim (input st)) as [|c name0] eqn:Hname; [done |].
    simpl. eexists. by repeat split.
Qed.

End TransitionTheorems.

(** ** Dates *)

Section DateFacts.
Import JsDate.
Local Open Scope Z_scope.

Local Ltac div_mod_lia := Z.to_euclidean_division_equations; lia.

(** Case analysis on the comparisons a month table is made of. *)
Local Ltac month_cases :=
  repeat match goal with
         | |- context [?a <? ?b] => destruct (Z.ltb_spec a b); [simpl; lia |]
         end;
  simpl; lia.

Lemma DayFromYear_succ y : DayFromYear (y + 1) = DayFromYear y + DaysInYear y.
Proof.
  unfold DayFromYear, DaysInYear.
  destruct (Z.eqb_spec (y `mod` 4) 0), (Z.eqb_spec (y `mod` 100) 0),
    (Z.eqb_spec (y `mod` 400) 0); simpl; div_mod_lia.
Qed.

(** [YearFromTime] is the year the day falls in. *)
Lemma YearFromTime_spec t :
  DayFromYear (YearFromTime t) ≤ Day t < DayFromYear (YearFromTime t + 1).
Proof.
  unfold YearFromTime. set (d := Day t). simpl.
  assert (DayFromYear (1970 + (400 * d) `div` 146097 - 1) ≤ d) as Hlo.
  { unfold DayFromYear. div_mod_lia. }
  assert (d < DayFromYear (1970 + (400 * d) `div` 146097 + 1 + 1)) as Hhi.
  { unfold DayFromYear. div_mod_lia. }
  set (y := 1970 + (400 * d) `div` 146097) in *.
  destruct (Z.ltb_spec d (DayFromYear y)).
  - replace (y - 1 + 1) with y by lia. lia.
  - destruct (Z.leb_spec (DayFromYear (y + 1)) d); lia.
Qed.

Lemma InLeapYear_cases t :
  (InLeapYear t = 0 ∧ DaysInYear (YearFromTime t) = 365)
  ∨ (InLeapYear t = 1 ∧ DaysInYear (YearFromTime t) = 366).
Proof.
  unfold InLeapYear, DaysInYear.
  repeat (destruct (_ =? 0); simpl); auto.
Qed.

Lemma DayWithinYear_range t : 0 ≤ DayWithinYear t < 365 + InLeapYear t.
Proof.
  unfold DayWithinYear. pose proof (YearFromTime_spec t) as Hy.
  rewrite DayFromYear_succ in Hy.
  destruct (InLeapYear_cases t) as [[-> Hd] | [-> Hd]]; lia.
Qed.

Lemma MonthFromTime_range t : 0 ≤ MonthFromTime t ≤ 11.
Proof. unfold MonthFromTime. cbv zeta. month_cases. Qed.

Lemma DateFromTime_range t : 1 ≤ DateFromTime t ≤ 31.
Proof.
  pose proof (DayWithinYear_range t) as Hd.
  unfold DateFromTime, MonthFromTime. cbv zeta.
  destruct (InLeapYear_cases t) as [[Hl _] | [Hl _]]; rewrite Hl in *; month_cases.
Qed.

(** The day number is recovered from year, month and date. *)
Lemma Day_from_fields t :
  Day t = DayFromMonth (YearFromTime t) (MonthFromTime t) + DateFromTime t - 1.
Proof.
  unfold DayFromMonth, DateFromTime. cbv zeta. fold (InLeapYear t).
  assert (Day t = DayFromYear (YearFromTime t) + DayWithinYear t) as ->
    by (unfold DayWithinYear; lia).
  unfold MonthFromTime. cbv zeta. month_cases.
Qed.

Lemma MakeDay_back t n :
  MakeDay (YearFromTime t) (MonthFromTime t) (DateFromTime t - n) = Day t - n.
Proof.
  unfold MakeDay. pose proof (MonthFromTime_range t) as Hm.
  rewrite Z.div_small, Z.mod_small, Z.add_0_r by lia.
  rewrite (Day_from_fields t). lia.
Qed.

(** In a zone that keeps one offset, [setDate(getDate() - n)] moves
    the instant back by [n] times 24 hours. *)
Lemma daysBack_fixed LocalTZA offset n t :
  (∀ t' isUTC, LocalTZA t' isUTC = offset) →
  App.daysBack LocalTZA n t = t - n * msPerDay.
Proof.
  intros Hz. unfold App.daysBack, setDate, getDate, UTC, LocalTime, MakeDate.
  rewrite !Hz, MakeDay_back. unfold Day, TimeWithinDay, msPerDay. div_mod_lia.
Qed.

Lemma walkDate_fixed LocalTZA offset now k :
  (∀ t' isUTC, LocalTZA t' isUTC = offset) →
  walkDate LocalTZA now k = now - Z.of_nat k * msPerDay.
Proof.
  intros Hz. induction k as [|k IH].
  - simpl. lia.
  - rewrite walkDate_succ, (daysBack_fixed _ _ _ _ Hz), IH. lia.
Qed.

Lemma Day_back t n : Day (t - n * msPerDay) = Day t - n.
Proof. unfold Day, msPerDay. div_mod_lia. Qed.

(** *** Numerals *)

Lemma length_digits w n : length (digits w n) = w.
Proof.
  revert n. induction w as [|w IH]; intros n; simpl; [done |].
  rewrite length_app, IH. simpl. lia.
Qed.

Lemma digits_inj w a b :
  0 ≤ a < 10 ^ Z.of_nat w → 0 ≤ b < 10 ^ Z.of_nat w →
  digits w a = digits w b → a = b.
Proof.
  revert a b. induction w as [|w IH]; intros a b Ha Hb Heq.
  - simpl in *. lia.
  - rewrite Nat2Z.inj_succ, Z.pow_succ_r in Ha, Hb by lia.
    simpl in Heq. apply app_inj_2 in Heq as [Hhi Hlo]; [| done].
    apply IH in Hhi; [| div_mod_lia | div_mod_lia].
    injection Hlo as Hlo. apply (f_equal Z.of_N) in Hlo.
    rewrite !Z2N.id in Hlo by div_mod_lia.
    rewrite (Z.div_mod a 10), (Z.div_mod b 10) by lia. lia.
Qed.

(** *** Day strings *)

Lemma dayString_length t : length (dayString t) = 10%nat.
Proof. unfold dayString. by rewrite !length_app, !length_digits. Qed.

(** For a four-digit year the ISO string starts with the day string. *)
Lemma toISOString_dayString t :
  fourDigitYear t → ∃ rest, toISOString t = dayString t ++ rest.
Proof.
  intros Hy. unfold toISOString, isoYear, dayString, fourDigitYear in *.
  rewrite bool_decide_eq_true_2 by done.
  eexists. rewrite <-!(assoc_L (++)). reflexivity.
Qed.

Lemma todayStr_dayString t : fourDigitYear t → App.todayStr t = dayString t.
Proof.
  intros Hy. destruct (toISOString_dayString t Hy) as [rest Hrest].
  unfold App.todayStr, slice0. rewrite Hrest.
  apply take_app_length'. by rewrite dayString_length.
Qed.

(** The day string is a function of the UTC day number. *)
Lemma dayString_Day t1 t2 : Day t1 = Day t2 → dayString t1 = dayString t2.
Proof.
  intros Hd.
  assert (YearFromTime t1 = YearFromTime t2) as Hy
    by (unfold YearFromTime; by rewrite Hd).
  assert (DayWithinYear t1 = DayWithinYear t2) as Hw
    by (unfold DayWithinYear; by rewrite Hd, Hy).
  assert (InLeapYear t1 = InLeapYear t2) as Hl
    by (unfold InLeapYear; by rewrite Hy).
  assert (MonthFromTime t1 = MonthFromTime t2) as Hm
    by (unfold MonthFromTime; by rewrite Hw, Hl).
  assert (DateFromTime t1 = DateFromTime t2) as Hdt
    by (unfold DateFromTime; by rewrite Hw, Hl, Hm).
  unfold dayString. by rewrite Hy, Hm, Hdt.
Qed.

(** Within the four-digit years, days with the same string are the
    same day. *)
Lemma dayString_inj t1 t2 :
  fourDigitYear t1 → fourDigitYear t2 →
  dayString t1 = dayString t2 → Day t1 = Day t2.
Proof.
  unfold fourDigitYear, dayString. intros Hy1 Hy2 Heq.
  pose proof (MonthFromTime_range t1). pose proof (MonthFromTime_range t2).
  pose proof (DateFromTime_range t1). pose proof (DateFromTime_range t2).
  apply app_inj_1 in Heq as [Hy Heq]; [| by rewrite !length_digits].
  apply app_inj_1 in Heq as [_ Heq]; [| done].
  apply app_inj_1 in Heq as [Hm Heq]; [| by rewrite !length_digits].
  apply app_inj_1 in Heq as [_ Hd]; [| done].
  apply digits_inj in Hy; [| simpl; lia | simpl; lia].
  apply digits_inj in Hm; [| simpl; lia | simpl; lia].
  apply digits_inj in Hd; [| simpl; lia | simpl; lia].
  rewrite (Day_from_fields t1), (Day_from_fields t2), Hy, Hd.
  by replace (MonthFromTime t1) with (MonthFromTime t2) by lia.
Qed.

End DateFacts.

Section DayTheorems.
Import JsDate App.
Local Open Scope Z_scope.

Lemma lastNDays_fixed LocalTZA offset n now :
  (∀ t isUTC, LocalTZA t isUTC = offset) →
  lastNDays LocalTZA n now
  = (λ i : nat, todayStr (now - Z.of_nat i * msPerDay)) <$> reverse (seq 0 n).
Proof.
  intros Hz. induction n as [|n IH]; [done |].
  rewrite seq_S, reverse_app, fmap_app. simpl.
  by rewrite (daysBack_fixed _ _ _ _ Hz), IH.
Qed.

(** What the day strings of the code are.  Every day string the
    program produces is the calendar day in UTC of the instant it is
    taken from, written YYYY-MM-DD in ten characters while the year has
    four digits, and changes at UTC midnight: two instants get the same
    string exactly when they lie on the same UTC day.  This holds for
    [todayStr], for the date of the completion a toggle adds and for
    the days of the streak walk and of [lastNDays]; the instants of
    the walk are reached by moving the local date back, which in a zone
    that keeps one offset puts them 24 hours apart, on consecutive UTC
    days. *)
Theorem day_strings_are_utc_days now :
  fourDigitYear now →
  todayStr now = dayString now
  ∧ length (todayStr now) = 10%nat
  ∧ (∀ now', fourDigitYear now' →
             todayStr now' = todayStr now ↔ Day now' = Day now)
  ∧ (∀ habitId0 st c,
        c ∈ completions (toggleComplete habitId0 now st) →
        c ∈ completions st ∨ c = {| habitId := habitId0; date := dayString now |})
  ∧ (∀ LocalTZA k,
        fourDigitYear (walkDate LocalTZA now k) →
        walkDay LocalTZA now k = dayString (walkDate LocalTZA now k))
  ∧ (∀ LocalTZA offset k,
        (∀ t isUTC, LocalTZA t isUTC = offset) →
        walkDate LocalTZA now k = now - Z.of_nat k * msPerDay
        ∧ Day (walkDate LocalTZA now k) = Day now - Z.of_nat k)
  ∧ (∀ LocalTZA offset n,
        (∀ t isUTC, LocalTZA t isUTC = offset) →
        lastNDays LocalTZA n now
        = (λ i : nat, todayStr (now - Z.of_nat i * msPerDay)) <$> reverse (seq 0 n)).
Proof.
  intros Hy. refine (conj _ (conj _ (conj _ (conj _ (conj _ (conj _ _)))))).
  - by apply todayStr_dayString.
  - rewrite todayStr_dayString by done. apply dayString_length.
  - intros now' Hy'. rewrite !todayStr_dayString by done. split.
    + by apply dayString_inj.
    + apply dayString_Day.
  - intros habitId0 st c.
    destruct (decide (completedOn habitId0 (completions st) (todayStr now)))
      as [Hal | Hfresh].
    + rewrite toggleComplete_already by done.
      rewrite list_elem_of_filter. intros [_ Hc]. by left.
    + rewrite toggleComplete_fresh by done.
      rewrite elem_of_app, list_elem_of_singleton, todayStr_dayString by done.
      tauto.
  - intros LocalTZA k Hk. by apply todayStr_dayString.
  - intros LocalTZA offset k Hz.
    rewrite (walkDate_fixed _ _ _ _ Hz). split; [done | apply Day_back].
  - intros LocalTZA offset n. apply lastNDays_fixed.
Qed.

End DayTheorems.

(** C8.  The day strings are not the local calendar day.  At 23:30
    UTC on 3 November 2026 a device one hour east of UTC is half an
    hour into 4 November, the day its header shows and the day its
    streak walk steps back from: [todayStr], the date a toggle stores
    and the first day of the streak walk all say 2026-11-03. *)
Theorem day_strings_are_not_local_days :
  let zone := JsDate.fixedZone 60 in
  let now := 1793748600000%Z in
  let habit := js "1" in
  localDayString zone now = js "2026-11-04"
  ∧ App.todayStr now = js "2026-11-03"
  ∧ App.completions (App.toggleComplete habit now (App.mount ∅))
    = [{| App.habitId := habit; App.date := js "2026-11-03" |}]
  ∧ walkDay zone now 0 = js "2026-11-03"
  ∧ ¬ (∀ LocalTZA t, App.todayStr t = localDayString LocalTZA t).
Proof.
  cbv zeta. split_and!; [by vm_compute ..|].
  intros H.
  specialize (H (JsDate.fixedZone 60) 1793748600000%Z).
  vm_compute in H. discriminate H.
Qed.

Lemma day_strings_are_utc_days_witness :
  fourDigitYear 1793748600000
  ∧ App.todayStr 1793748600000 = dayString 1793748600000.
Proof.
  assert (fourDigitYear 1793748600000) as Hy by (by vm_compute).
  exact (conj Hy (proj1 (day_strings_are_utc_days 1793748600000 Hy))).
Defined.

(** ** The streak walk at a clock change *)

(** C1.  The walk does not go back day by day where the clocks went
    forward.  At 23:30 UTC on 8 March 2026, 19:30 on the device, which
    is four hours west of UTC since that morning and was five hours
    west before, today is 8 March in UTC and on the device alike.  The
    habit has completions on today-1 and today-2 only, 7 and 6 March.
    The step back from today moves the local date to 7 March 19:30,
    which is 8 March 00:30 in UTC: the walk reads 8 March a second
    time, finds no completion at offset 1 and stops, and the streak is
    0 where the walk of the specification gives 2.  On a device that
    stays four hours west of UTC the same call gives 2. *)
Theorem getStreak_breaks_at_clock_change :
  let now := 1773012600000%Z in
  let habit := js "1" in
  let completions :=
    [ {| App.habitId := habit; App.date := js "2026-03-07" |};
      {| App.habitId := habit; App.date := js "2026-03-06" |} ] in
  App.todayStr now = js "2026-03-08"
  ∧ localDayString springForwardZone now = js "2026-03-08"
  ∧ dayString (now - 1 * JsDate.msPerDay) = js "2026-03-07"
  ∧ dayString (now - 2 * JsDate.msPerDay) = js "2026-03-06"
  ∧ walkDay springForwardZone now <$> [0; 1; 2; 3]%nat
    = [js "2026-03-08"; js "2026-03-08"; js "2026-03-07"; js "2026-03-06"]
  ∧ App.getStreak springForwardZone habit completions now = 0%Z
  ∧ specWalk
      (λ k, bool_decide
              (completedOn habit completions
                 (dayString (now - Z.of_nat k * JsDate.msPerDay)))) 365 0
    = 2%Z
  ∧ App.getStreak (JsDate.fixedZone (-240)) habit completions now = 2%Z.
Proof. cbv zeta. split_and!; by vm_compute. Qed.

(** ** JSON *)

Section JsonFacts.
Import Json.
Local Open Scope N_scope.

Lemma skipWhiteSpace_id c s :
  isJsonWhiteSpace c = false → skipWhiteSpace (c :: s) = c :: s.
Proof. intros Hc. simpl. by rewrite Hc. Qed.

Lemma hexValue_hexDigit d : d < 16 → hexValue (hexDigit d) = Some d.
Proof.
  intros Hd. unfold hexDigit, hexValue.
  destruct (N.ltb_spec d 10).
  - rewrite (proj2 (andb_true_iff _ _)) by (split; apply N.leb_le; lia).
    f_equal. lia.
  - rewrite (proj2 (andb_false_iff _ _)) by (right; apply N.leb_gt; lia).
    rewrite (proj2 (andb_false_iff _ _)) by (right; apply N.leb_gt; lia).
    rewrite (proj2 (andb_true_iff _ _)) by (split; apply N.leb_le; lia).
    f_equal. lia.
Qed.

(** A character that stands for itself. *)
Lemma parseChars_literal c tail :
  (c =? 0x22) = false → (c =? 0x5C) = false → (c <? 0x20) = false →
  parseChars (c :: tail) = r ← parseChars tail; Some (c :: r.1, r.2).
Proof. intros H1 H2 H3. simpl. by rewrite H1, H2, H3. Qed.

Lemma parseChars_unicodeEscape c tail :
  c < 65536 →
  parseChars (unicodeEscape c ++ tail) = r ← parseChars tail; Some (c :: r.1, r.2).
Proof.
  intros Hc. unfold unicodeEscape.
  change (parseChars ([0x5C; 0x75; ?h1; ?h2; ?h3; ?h4] ++ tail))
    with (d1 ← hexValue h1; d2 ← hexValue h2; d3 ← hexValue h3; d4 ← hexValue h4;
          r ← parseChars tail;
          Some ((d1 * 4096 + d2 * 256 + d3 * 16 + d4) :: r.1, r.2)).
  rewrite !hexValue_hexDigit by (apply N.mod_lt; lia). simpl.
  replace ((c / 4096) `mod` 16 * 4096 + (c / 256) `mod` 16 * 256
           + (c / 16) `mod` 16 * 16 + c `mod` 16) with c; [done |].
  zify. Z.to_euclidean_division_equations. lia.
Qed.

Lemma surrogate_bounds c :
  (c <? 0x20) || isLeadingSurrogate c || isTrailingSurrogate c = true → c < 65536.
Proof.
  unfold isLeadingSurrogate, isTrailingSurrogate.
  rewrite !orb_true_iff, !andb_true_iff, !N.leb_le, N.ltb_lt. lia.
Qed.

Lemma parseChars_quoteUnit c tail :
  parseChars (quoteUnit c ++ tail) = r ← parseChars tail; Some (c :: r.1, r.2).
Proof.
  unfold quoteUnit.
  destruct (N.eqb_spec c 0x08) as [-> | H08]; [reflexivity |].
  destruct (N.eqb_spec c 0x09) as [-> | H09]; [reflexivity |].
  destruct (N.eqb_spec c 0x0A) as [-> | H0A]; [reflexivity |].
  destruct (N.eqb_spec c 0x0C) as [-> | H0C]; [reflexivity |].
  destruct (N.eqb_spec c 0x0D) as [-> | H0D]; [reflexivity |].
  destruct (N.eqb_spec c 0x22) as [-> | H22]; [reflexivity |].
  destruct (N.eqb_spec c 0x5C) as [-> | H5C]; [reflexivity |].
  destruct ((c <? 0x20) || isLeadingSurrogate c || isTrailingSurrogate c) eqn:Hesc.
  - apply parseChars_unicodeEscape. by apply surrogate_bounds.
  - apply orb_false_iff in Hesc as [Hesc _]. apply orb_false_iff in Hesc as [Hlt _].
    apply parseChars_literal; [by apply N.eqb_neq | by apply N.eqb_neq | done].
Qed.

Lemma parseChars_surrogate c tail :
  isLeadingSurrogate c || isTrailingSurrogate c = true →
  parseChars (c :: tail) = r ← parseChars tail; Some (c :: r.1, r.2).
Proof.
  unfold isLeadingSurrogate, isTrailingSurrogate.
  rewrite orb_true_iff, !andb_true_iff, !N.leb_le. intros Hc.
  apply parseChars_literal; [apply N.eqb_neq | apply N.eqb_neq | apply N.ltb_ge]; lia.
Qed.

(** Reading back the characters [quoteChars] wrote, up to the closing
    quote. *)
Lemma parseChars_quoteChars s rest :
  parseChars (quoteChars s ++ 0x22 :: rest) = Some (s, rest).
Proof.
  revert rest.
  enough ((∀ rest, parseChars (quoteChars s ++ 0x22 :: rest) = Some (s, rest))
          ∧ ∀ c rest, parseChars (quoteChars (c :: s) ++ 0x22 :: rest)
                      = Some (c :: s, rest)) as [H _]; [done |].
  induction s as [|c2 s [IH0 IH1]].
  - split; [done |]. intros c rest. simpl.
    destruct (isLeadingSurrogate c) eqn:Hlead.
    + rewrite parseChars_unicodeEscape; [done |].
      apply surrogate_bounds. by rewrite Hlead, orb_true_r.
    + by rewrite app_nil_r, parseChars_quoteUnit.
  - split; [apply IH1 |]. intros c rest.
    change (quoteChars (c :: c2 :: s))
      with (if isLeadingSurrogate c
            then if isTrailingSurrogate c2 then c :: c2 :: quoteChars s
                 else unicodeEscape c ++ quoteChars (c2 :: s)
            else quoteUnit c ++ quoteChars (c2 :: s)).
    destruct (isLeadingSurrogate c) eqn:Hlead.
    + destruct (isTrailingSurrogate c2) eqn:Htrail.
      * rewrite <-!app_comm_cons.
        rewrite parseChars_surrogate by by rewrite Hlead.
        rewrite parseChars_surrogate by by rewrite Htrail, orb_true_r.
        by rewrite IH0.
      * rewrite <-(assoc_L (++)), parseChars_unicodeEscape, IH1; [done |].
        apply surrogate_bounds. by rewrite Hlead, orb_true_r.
    + by rewrite <-(assoc_L (++)), parseChars_quoteUnit, IH1.
Qed.

End JsonFacts.

Section JsonRoundTrip.
Import Json.
Local Open Scope N_scope.

(** Induction on values, with the hypothesis for every element of an
    array and every property of an object. *)
Lemma value_nested_ind (P : value → Prop) :
  P JNull → (∀ b, P (JBool b)) → (∀ n, P (JNumber n)) → (∀ s, P (JString s)) →
  (∀ elements, Forall P elements → P (JArray elements)) →
  (∀ properties, Forall (λ p, P p.2) properties → P (JObject properties)) →
  ∀ v, P v.
Proof.
  intros Hnull Hbool Hnum Hstr Harr Hobj.
  fix IH 1. intros [| b | n | s | elements | properties].
  - apply Hnull.
  - apply Hbool.
  - apply Hnum.
  - apply Hstr.
  - apply Harr. induction elements as [|e elements IHl]; constructor; [apply IH | done].
  - apply Hobj. induction properties as [|p properties IHl]; constructor;
      [apply IH | done].
Qed.

Lemma stringify_opens v : plain v → ∃ c s, stringify v = c :: s ∧ opens v c.
Proof.
  destruct v as [| [|] | n | s | elements | properties]; simpl; try done;
    intros _; eexists _, _; (split; [reflexivity | done]).
Qed.

Lemma opens_not_white v c : opens v c → isJsonWhiteSpace c = false.
Proof. destruct v as [| [|] | | | |]; simpl; try done; by intros ->. Qed.


(** *** The reader, one case at a time *)

Lemma parseValue_string f s' :
  parseValue (S f) (0x22 :: s') = r ← parseChars s'; Some (JString r.1, r.2).
Proof. reflexivity. Qed.

Lemma parseValue_empty_array f rest :
  parseValue (S f) (0x5B :: 0x5D :: rest) = Some (JArray [], rest).
Proof. reflexivity. Qed.

Lemma parseValue_empty_object f rest :
  parseValue (S f) (0x7B :: 0x7D :: rest) = Some (JObject [], rest).
Proof. reflexivity. Qed.

Lemma parseValue_array f v c s :
  opens v c →
  parseValue (S f) (0x5B :: c :: s) = r ← parseElements f (c :: s); Some (JArray r.1, r.2).
Proof.
  destruct v as [| [|] | | | |]; simpl; try done; by intros ->.
Qed.

Lemma parseValue_object f s :
  parseValue (S f) (0x7B :: 0x22 :: s)
  = r ← parseMembers f [] (0x22 :: s); Some (JObject r.1, r.2).
Proof. reflexivity. Qed.

Lemma parseElements_S f s :
  parseElements (S f) s
  = r ← parseValue f s;
    match skipWhiteSpace r.2 with
    | 0x2C :: s' => rs ← parseElements f s'; Some (r.1 :: rs.1, rs.2)
    | 0x5D :: rest => Some ([r.1], rest)
    | _ => None
    end.
Proof. reflexivity. Qed.

Lemma parseMembers_S f acc s1 :
  parseMembers (S f) acc (0x22 :: s1)
  = k ← parseChars s1;
    match skipWhiteSpace k.2 with
    | 0x3A :: s2 =>
        r ← parseValue f s2;
        match skipWhiteSpace r.2 with
        | 0x2C :: s3 => parseMembers f (setProperty k.1 r.1 acc) s3
        | 0x7D :: rest => Some (setProperty k.1 r.1 acc, rest)
        | _ => None
        end
    | _ => None
    end.
Proof. reflexivity. Qed.

Lemma joinComma_cons x items :
  items ≠ [] → joinComma (x :: items) = x ++ 0x2C :: joinComma items.
Proof. by destruct items. Qed.

(** *** Properties set one after the other *)

Lemma setProperty_fresh k v ps :
  k ∉ ps.*1 → setProperty k v ps = ps ++ [(k, v)].
Proof.
  induction ps as [|p ps IH]; simpl; [done |].
  rewrite not_elem_of_cons. intros [Hne Hk].
  rewrite decide_False by done. by rewrite IH.
Qed.

Lemma foldl_setProperty acc ps :
  NoDup (acc ++ ps).*1 →
  foldl (λ a p, setProperty p.1 p.2 a) acc ps = acc ++ ps.
Proof.
  revert acc. induction ps as [|[k v] ps IH]; intros acc Hnd; simpl.
  - by rewrite app_nil_r.
  - rewrite setProperty_fresh.
    + rewrite IH; rewrite <-(assoc_L (++)); done.
    + rewrite fmap_app, NoDup_app in Hnd. destruct Hnd as (_ & Hdis & _).
      intros Hin. apply (Hdis k Hin). simpl. left.
Qed.

(** *** Reading back what was written *)

Lemma parseElements_stringify elements fuel rest :
  elements ≠ [] →
  Forall readsBack elements →
  foldr (λ e P, plain e ∧ P) True elements →
  (needElements elements ≤ fuel)%nat →
  parseElements fuel (joinComma (map stringify elements) ++ 0x5D :: rest)
  = Some (elements, rest).
Proof.
  intros Hne Hall. revert fuel Hne.
  induction Hall as [|e elements He Hall IH]; intros fuel Hne Hplain Hfuel; [done |].
  destruct Hplain as [Hpe Hplain]. simpl in Hfuel.
  destruct fuel as [|f]; [lia |]. rewrite parseElements_S.
  destruct elements as [|e2 elements].
  - simpl. rewrite (He Hpe) by lia. done.
  - change (map stringify (e :: e2 :: elements))
      with (stringify e :: map stringify (e2 :: elements)).
    rewrite joinComma_cons, <-(assoc_L (++)), <-app_comm_cons by done.
    rewrite (He Hpe) by lia.
    remember (joinComma (map stringify (e2 :: elements)) ++ 0x5D :: rest) as tail.
    simpl. subst tail.
    rewrite IH; [done | done | done |].
    unfold needElements in *. simpl in *. lia.
Qed.

Lemma parseMembers_stringify properties acc fuel rest :
  properties ≠ [] →
  Forall (λ p, readsBack p.2) properties →
  foldr (λ p P, plain p.2 ∧ P) True properties →
  (needMembers properties ≤ fuel)%nat →
  parseMembers fuel acc
    (joinComma (map (λ p, quote p.1 ++ [0x3A] ++ stringify p.2) properties)
     ++ 0x7D :: rest)
  = Some (foldl (λ a p, setProperty p.1 p.2 a) acc properties, rest).
Proof.
  intros Hne Hall. revert acc fuel Hne.
  induction Hall as [|[k v] properties Hv Hall IH]; intros acc fuel Hne Hplain Hfuel;
    [done |].
  destruct Hplain as [Hpv Hplain]. simpl in Hfuel, Hpv, Hv.
  destruct fuel as [|f]; [lia |].
  destruct properties as [|p2 properties].
  - simpl. unfold quote. rewrite <-!(assoc_L (++)). simpl.
    rewrite ?parseMembers_S, parseChars_quoteChars. simpl.
    rewrite (Hv Hpv) by lia. done.
  - change (map ?f ((k, v) :: p2 :: properties))
      with (f (k, v) :: map f (p2 :: properties)).
    rewrite joinComma_cons, <-(assoc_L (++)), <-app_comm_cons by done.
    remember (joinComma (map (λ p, quote p.1 ++ [0x3A] ++ stringify p.2)
                           (p2 :: properties)) ++ 0x7D :: rest) as tail.
    cbn beta. simpl fst. simpl snd.
    unfold quote. rewrite <-!(assoc_L (++)). simpl.
    rewrite ?parseMembers_S, parseChars_quoteChars. simpl.
    rewrite (Hv Hpv) by lia. simpl. subst tail.
    rewrite IH; [done | done | done |].
    unfold needMembers in *. simpl in *. lia.
Qed.

(** A plain value is read back from its text, whatever follows it. *)
Lemma parseValue_stringify v : readsBack v.
Proof.
  induction v as [| b | n | s | elements IH | properties IH] using value_nested_ind;
    intros Hplain fuel rest Hfuel; simpl in Hfuel;
    (destruct fuel as [|f]; [lia |]).
  - reflexivity.
  - by destruct b.
  - done.
  - simpl. unfold quote. rewrite <-!(assoc_L (++)). simpl.
    by rewrite ?parseValue_string, parseChars_quoteChars.
  - simpl in Hplain. destruct elements as [|e elements].
    + apply parseValue_empty_array.
    + pose proof Hplain as [Hpe _].
      destruct (stringify_opens e Hpe) as (c & s & Hs & Hop).
      change (stringify (JArray (e :: elements)) ++ rest)
        with (0x5B :: (joinComma (map stringify (e :: elements)) ++ [0x5D]) ++ rest).
      rewrite <-(assoc_L (++)). change ([0x5D] ++ rest) with (0x5D :: rest).
      assert (∃ s', joinComma (map stringify (e :: elements)) ++ 0x5D :: rest
                    = c :: s') as [s' Hs'].
      { destruct elements; simpl; rewrite Hs; eauto. }
      rewrite Hs', (parseValue_array _ e) by done. rewrite <-Hs'.
      rewrite parseElements_stringify; [done | done | done | done |].
      unfold needElements. lia.
  - simpl in Hplain. destruct Hplain as [Hnd Hplain].
    destruct properties as [|p properties].
    + apply parseValue_empty_object.
    + change (stringify (JObject (p :: properties)) ++ rest)
        with (0x7B :: (joinComma (map (λ p, quote p.1 ++ [0x3A] ++ stringify p.2)
                                    (p :: properties)) ++ [0x7D]) ++ rest).
      rewrite <-(assoc_L (++)). change ([0x7D] ++ rest) with (0x7D :: rest).
      assert (∃ s', joinComma (map (λ p, quote p.1 ++ [0x3A] ++ stringify p.2)
                                 (p :: properties)) ++ 0x7D :: rest
                    = 0x22 :: s') as [s' Hs'].
      { destruct properties; simpl; eauto. }
      rewrite Hs', parseValue_object. rewrite <-Hs'.
      rewrite parseMembers_stringify; [| done | done | done |].
      * by rewrite foldl_setProperty by exact Hnd.
      * unfold needMembers. lia.
Qed.

End JsonRoundTrip.

Section Persistence.
Import Json App.

Lemma need_le_length v : plain v → (need v ≤ length (stringify v))%nat.
Proof.
  induction v as [| b | n | s | elements IH | properties IH] using value_nested_ind;
    intros Hplain.
  - simpl. lia.
  - destruct b; simpl; lia.
  - done.
  - simpl. rewrite length_app. simpl. lia.
  - simpl in Hplain.
    change (stringify (JArray elements))
      with (0x5B%N :: joinComma (map stringify elements) ++ [0x5D%N]).
    cbn [length need]. rewrite length_app. cbn [length].
    enough (needElements elements ≤ S (length (joinComma (map stringify elements))))%nat
      by (unfold needElements in *; lia).
    induction IH as [|e elements He Hall IHl]; [simpl; lia |].
    destruct Hplain as [Hpe Hplain]. specialize (He Hpe). specialize (IHl Hplain).
    unfold needElements in *. simpl foldr.
    destruct elements as [|e2 elements].
    + simpl. lia.
    + rewrite map_cons, joinComma_cons, length_app by done. cbn [length]. lia.
  - simpl in Hplain. destruct Hplain as [_ Hplain].
    change (stringify (JObject properties))
      with (0x7B%N :: joinComma (map (λ p, quote p.1 ++ [0x3A%N] ++ stringify p.2)
                                  properties) ++ [0x7D%N]).
    cbn [length need]. rewrite length_app. cbn [length].
    enough (needMembers properties
            ≤ S (length (joinComma (map (λ p, quote p.1 ++ [0x3A%N] ++ stringify p.2)
                                      properties))))%nat
      by (unfold needMembers in *; lia).
    induction IH as [|p properties Hp Hall IHl]; [simpl; lia |].
    destruct Hplain as [Hpp Hplain]. specialize (Hp Hpp). specialize (IHl Hplain).
    unfold needMembers in *. simpl foldr.
    assert (need p.2 ≤ length (quote p.1 ++ [0x3A%N] ++ stringify p.2))%nat as Hm
      by (rewrite !length_app; lia).
    destruct properties as [|p2 properties].
    + cbn [map joinComma foldr]. lia.
    + rewrite map_cons, joinComma_cons, length_app by done. cbn [length]. lia.
Qed.

(** [JSON.parse] gives back every plain value [JSON.stringify] wrote. *)
Lemma parse_stringify v : plain v → parse (stringify v) = Some v.
Proof.
  intros Hplain. unfold parse.
  rewrite <-(app_nil_r (stringify v)) at 2.
  rewrite (parseValue_stringify v Hplain).
  - done.
  - pose proof (need_le_length v Hplain). lia.
Qed.

(** *** The two record types *)

Lemma habitToJson_plain h : plain (habitToJson h).
Proof.
  destruct h as [? ? ? [?|] [?|] [?|] [?|] [?|] [?|] [?|]]; simpl;
    (split; [| done]); apply (bool_decide_unpack _); by vm_compute.
Qed.

Lemma completionToJson_plain c : plain (completionToJson c).
Proof.
  unfold completionToJson. simpl. split; [| done].
  apply (bool_decide_unpack _). by vm_compute.
Qed.

Lemma plain_array {A} (f : A → value) (items : list A) :
  (∀ x, plain (f x)) → plain (JArray (map f items)).
Proof. intros Hf. induction items as [|x items IH]; simpl; [done | by split]. Qed.

(** The records read back from the values they are written as. *)
Lemma asHabit_habitToJson h : asHabit (habitToJson h) = Some h.
Proof. destruct h as [? ? ? [?|] [?|] [?|] [?|] [?|] [?|] [?|]]; reflexivity. Qed.

Lemma asCompletion_completionToJson c : asCompletion (completionToJson c) = Some c.
Proof. by destruct c. Qed.

Lemma takeString_spec k ps o ps' :
  takeString k ps = (o, ps') → ps = optionalProperty k o ++ ps'.
Proof.
  unfold takeString. destruct ps as [|[k' []] ps0]; try (by intros [= <- <-]).
  case_decide as Hk; [subst k' |]; by intros [= <- <-].
Qed.

(** The objects the earlier versions of the app wrote are among the
    values of habits: the one with [id], [name] and [createdAt] only,
    and the one with the two video properties after them. *)
Lemma habitToJson_earlier_versions id0 name0 createdAt0 videoId0 videoTitle0 :
  habitToJson {| id := id0; name := name0; createdAt := createdAt0;
                 videoId := None; videoTitle := None; playlistId := None;
                 playlistTitle := None; playlistCategory := None;
                 playlistEmoji := None; playlistColor := None |}
  = JObject [(js "id", JString id0); (js "name", JString name0);
             (js "createdAt", JString createdAt0)]
  ∧ habitToJson {| id := id0; name := name0; createdAt := createdAt0;
                   videoId := Some videoId0; videoTitle := Some videoTitle0;
                   playlistId := None; playlistTitle := None;
                   playlistCategory := None; playlistEmoji := None;
                   playlistColor := None |}
    = JObject [(js "id", JString id0); (js "name", JString name0);
               (js "createdAt", JString createdAt0);
               (js "videoId", JString videoId0);
               (js "videoTitle", JString videoTitle0)].
Proof. done. Qed.

(** The typed view is exact: a value is read as a record only when it
    is the value that record is written as. *)
Lemma asHabit_exact v h : asHabit v = Some h → v = habitToJson h.
Proof.
  destruct v as [| | | | | ps]; try done. unfold asHabit.
  destruct (takeString (js "id") ps) as [id0 ps1] eqn:H1.
  destruct (takeString (js "name") ps1) as [name0 ps2] eqn:H2.
  destruct (takeString (js "createdAt") ps2) as [createdAt0 ps3] eqn:H3.
  destruct (takeString (js "videoId") ps3) as [videoId0 ps4] eqn:H4.
  destruct (takeString (js "videoTitle") ps4) as [videoTitle0 ps5] eqn:H5.
  destruct (takeString (js "playlistId") ps5) as [playlistId0 ps6] eqn:H6.
  destruct (takeString (js "playlistTitle") ps6) as [playlistTitle0 ps7] eqn:H7.
  destruct (takeString (js "playlistCategory") ps7) as [playlistCategory0 ps8] eqn:H8.
  destruct (takeString (js "playlistEmoji") ps8) as [playlistEmoji0 ps9] eqn:H9.
  destruct (takeString (js "playlistColor") ps9) as [playlistColor0 ps10] eqn:H10.
  destruct id0 as [id1|], name0 as [name1|], createdAt0 as [createdAt1|],
    ps10 as [|p ps10]; try done.
  intros [= <-]. unfold habitToJson. cbn [id name createdAt videoId videoTitle
    playlistId playlistTitle playlistCategory playlistEmoji playlistColor].
  apply takeString_spec in H1, H2, H3, H4, H5, H6, H7, H8, H9, H10.
  subst ps9 ps8 ps7 ps6 ps5 ps4 ps3 ps2 ps1 ps.
  by rewrite app_nil_r.
Qed.

Lemma asCompletion_exact v c : asCompletion v = Some c → v = completionToJson c.
Proof.
  destruct v as [| | | | | ps]; try done. unfold asCompletion.
  destruct (takeString (js "habitId") ps) as [habitId0 ps1] eqn:H1.
  destruct (takeString (js "date") ps1) as [date0 ps2] eqn:H2.
  destruct habitId0 as [habitId1|], date0 as [date1|], ps2 as [|p ps2]; try done.
  intros [= <-]. apply takeString_spec in H1, H2. by subst ps1 ps.
Qed.

Lemma mapM_exact {A} (as_ : value → option A) (to : A → value) elements items :
  (∀ x, as_ (to x) = Some x) → (∀ v x, as_ v = Some x → v = to x) →
  mapM as_ elements = Some items ↔ elements = map to items.
Proof.
  intros Hback Hexact. rewrite mapM_Some. split.
  - induction 1 as [|v x elements items Hv _ IH]; [done |].
    simpl. by rewrite (Hexact v x Hv), IH.
  - intros ->. induction items as [|x items IH]; simpl; constructor; [apply Hback | done].
Qed.

Lemma asHabits_exact v hs : asHabits v = Some hs ↔ v = habitsToJson hs.
Proof.
  unfold habitsToJson. destruct v as [| | | | elements |]; try done. simpl.
  rewrite (mapM_exact asHabit habitToJson)
    by first [apply asHabit_habitToJson | apply asHabit_exact].
  split; [by intros -> | by intros [= ->]].
Qed.

Lemma asCompletions_exact v cs : asCompletions v = Some cs ↔ v = completionsToJson cs.
Proof.
  unfold completionsToJson. destruct v as [| | | | elements |]; try done. simpl.
  rewrite (mapM_exact asCompletion completionToJson)
    by first [apply asCompletion_completionToJson | apply asCompletion_exact].
  split; [by intros -> | by intros [= ->]].
Qed.

Lemma parse_stringifyHabits hs : parse (stringifyHabits hs) = Some (habitsToJson hs).
Proof. apply parse_stringify, plain_array, habitToJson_plain. Qed.

Lemma parse_stringifyCompletions cs :
  parse (stringifyCompletions cs) = Some (completionsToJson cs).
Proof. apply parse_stringify, plain_array, completionToJson_plain. Qed.

(** The text of an array is never the empty string. *)
Lemma truthy_stringifyHabits hs : JsString.truthy (stringifyHabits hs) = true.
Proof. reflexivity. Qed.

Lemma truthy_stringifyCompletions cs :
  JsString.truthy (stringifyCompletions cs) = true.
Proof. reflexivity. Qed.

Lemma parseRecord_stringifyHabits hs :
  parseRecord (Some (stringifyHabits hs)) = Some (Some (habitsToJson hs)).
Proof.
  unfold parseRecord. by rewrite truthy_stringifyHabits, parse_stringifyHabits.
Qed.

Lemma parseRecord_stringifyCompletions cs :
  parseRecord (Some (stringifyCompletions cs)) = Some (Some (completionsToJson cs)).
Proof.
  unfold parseRecord.
  by rewrite truthy_stringifyCompletions, parse_stringifyCompletions.
Qed.

Lemma HABITS_KEY_ne : HABITS_KEY ≠ COMPLETIONS_KEY.
Proof. by vm_compute. Qed.

Lemma call_SetHabits hs st : call st (SetHabits (habitsToJson hs)) = Some (setHabits hs st).
Proof.
  unfold call. by rewrite (proj2 (asHabits_exact (habitsToJson hs) hs) eq_refl).
Qed.

Lemma call_SetCompletions cs st :
  call st (SetCompletions (completionsToJson cs)) = Some (setCompletions cs st).
Proof.
  unfold call.
  by rewrite (proj2 (asCompletions_exact (completionsToJson cs) cs) eq_refl).
Qed.

(** Reading a storage that holds the two records. *)
Lemma loadCalls_stored hs cs disk :
  disk !! HABITS_KEY = Some (stringifyHabits hs) →
  disk !! COMPLETIONS_KEY = Some (stringifyCompletions cs) →
  loadCalls disk
  = [SetHabits (habitsToJson hs); SetCompletions (completionsToJson cs)].
Proof.
  intros Hh Hc. unfold loadCalls. rewrite Hh, Hc.
  by rewrite parseRecord_stringifyHabits, parseRecord_stringifyCompletions.
Qed.

Lemma load_stored hs cs st :
  storage st !! HABITS_KEY = Some (stringifyHabits hs) →
  storage st !! COMPLETIONS_KEY = Some (stringifyCompletions cs) →
  load st = Some (setCompletions cs (setHabits hs st)).
Proof.
  intros Hh Hc. unfold load. rewrite (loadCalls_stored hs cs) by done.
  cbn [calls]. rewrite call_SetHabits. cbn [mbind option_bind].
  by rewrite call_SetCompletions.
Qed.

(** C9.  After both collections are saved, in either order and
    whatever the state was, the effect of a component mounted on the
    storage they were saved to hands the setters the very values that
    were saved, first the habits and then the completions, and the
    state it leaves holds exactly the saved habits and the saved
    completions.  The habits are any habits: each of the suggestion
    fields may be there or not, as in the records of every version of
    the app.  Nothing is lost in between: a parsed value is read as a
    list of records only when it is the value that list is written
    as. *)
Theorem load_after_save hs cs st :
  let saved := saveCompletions cs (saveHabits hs st) in
  let saved' := saveHabits hs (saveCompletions cs st) in
  let written := [SetHabits (habitsToJson hs); SetCompletions (completionsToJson cs)] in
  loadCalls (storage saved) = written
  ∧ loadCalls (storage saved') = written
  ∧ load (mount (storage saved))
    = Some (setCompletions cs (setHabits hs (mount (storage saved))))
  ∧ load (mount (storage saved'))
    = Some (setCompletions cs (setHabits hs (mount (storage saved'))))
  ∧ habits <$> load (mount (storage saved)) = Some hs
  ∧ completions <$> load (mount (storage saved)) = Some cs
  ∧ habits <$> load (mount (storage saved')) = Some hs
  ∧ completions <$> load (mount (storage saved')) = Some cs
  ∧ Json.parse (stringifyHabits hs) = Some (habitsToJson hs)
  ∧ Json.parse (stringifyCompletions cs) = Some (completionsToJson cs)
  ∧ (∀ v, asHabits v = Some hs ↔ v = habitsToJson hs)
  ∧ (∀ v, asCompletions v = Some cs ↔ v = completionsToJson cs).
Proof.
  intros saved saved' written.
  assert (storage saved !! HABITS_KEY = Some (stringifyHabits hs)) as Hh.
  { unfold saved, saveCompletions, saveHabits; simpl.
    rewrite lookup_insert_ne by (symmetry; apply HABITS_KEY_ne).
    apply lookup_insert_eq. }
  assert (storage saved !! COMPLETIONS_KEY = Some (stringifyCompletions cs)) as Hc
    by apply lookup_insert_eq.
  assert (storage saved' !! HABITS_KEY = Some (stringifyHabits hs)) as Hh'
    by apply lookup_insert_eq.
  assert (storage saved' !! COMPLETIONS_KEY = Some (stringifyCompletions cs)) as Hc'.
  { unfold saved', saveCompletions, saveHabits; simpl.
    rewrite lookup_insert_ne by apply HABITS_KEY_ne.
    apply lookup_insert_eq. }
  rewrite !(load_stored hs cs) by done.
  split_and!; try done.
  - by apply loadCalls_stored.
  - by apply loadCalls_stored.
  - apply parse_stringifyHabits.
  - apply parse_stringifyCompletions.
  - intros v. apply asHabits_exact.
  - intros v. apply asCompletions_exact.
Qed.

End Persistence.

(** ** The properties on the example states *)

Lemma exampleTracked_atMostOnePerDay : atMostOnePerDay (App.completions exampleTracked).
Proof.
  intros habitId0 d. change (App.completions exampleTracked) with exampleCompletions.
  unfold exampleCompletions. rewrite !filter_cons, filter_nil.
  destruct (decide (d = js "2026-11-02")) as [-> | Hne].
  - rewrite (decide_False (P := _ ∧ js "2026-11-01" = _)) by (by intros [_ ?]).
    case_decide; simpl; lia.
  - rewrite (decide_False (P := _ ∧ js "2026-11-02" = _)) by (intros [_ ?]; by apply Hne).
    case_decide; simpl; lia.
Qed.

Lemma atMostOnePerDay_preserved_witness :
  atMostOnePerDay (App.completions exampleTracked)
  ∧ ∀ habitId0 now,
      atMostOnePerDay (App.completions (App.toggleComplete habitId0 now exampleTracked)).
Proof.
  split; [exact exampleTracked_atMostOnePerDay |].
  exact (proj1 (atMostOnePerDay_preserved asciiLowerCase exampleTracked
                  exampleTracked_atMostOnePerDay)).
Defined.

Lemma double_toggle_keeps_streak_witness :
  App.todayStr exampleNow = App.todayStr (exampleNow + 1000)
  ∧ App.getStreak exampleZone exampleHabitId
      (App.completions
         (App.toggleComplete exampleHabitId (exampleNow + 1000)
            (App.toggleComplete exampleHabitId exampleNow exampleTracked)))
      exampleNow
    = App.getStreak exampleZone exampleHabitId (App.completions exampleTracked)
        exampleNow.
Proof.
  assert (App.todayStr exampleNow = App.todayStr (exampleNow + 1000)) as Hday
    by (vm_compute; reflexivity).
  exact (conj Hday
           (double_toggle_keeps_streak exampleZone exampleHabitId exampleNow
              (exampleNow + 1000) exampleNow exampleTracked Hday)).
Defined.

Lemma exampleTracked_habits : App.habits exampleTracked = [exampleHabit].
Proof. by vm_compute. Qed.

Lemma deleteHabit_cascades_witness :
  exampleHabit ∈ App.habits exampleTracked
  ∧ App.habits (App.deleteHabit (App.id exampleHabit) App.Delete exampleTracked)
    = filter (λ h, App.id h ≠ App.id exampleHabit) (App.habits exampleTracked)
  ∧ App.completions (App.deleteHabit (App.id exampleHabit) App.Delete exampleTracked)
    = filter (λ c, App.habitId c ≠ App.id exampleHabit) (App.completions exampleTracked).
Proof.
  assert (exampleHabit ∈ App.habits exampleTracked) as Hin
    by (rewrite exampleTracked_habits; left).
  split; [exact Hin |].
  destruct (deleteHabit_cascades exampleHabit exampleTracked Hin)
    as (_ & _ & _ & Hh & Hc & _).
  exact (conj Hh Hc).
Defined.

(** ** More on the streak engine *)

Section StreakExtras.
Import App.
Variable LocalTZA : Z → bool → Z.
Local Open Scope Z_scope.

Implicit Types (st : State) (cs : list Completion).

Lemma specWalk_nonneg completed horizon offset : 0 ≤ specWalk completed horizon offset.
Proof.
  revert offset. induction horizon as [|h IH]; intros offset; simpl; [done |].
  pose proof (IH (S offset)). repeat case_match; lia.
Qed.

Lemma specWalk_mono (completed1 completed2 : nat → bool) horizon offset :
  (∀ k, completed1 k = true → completed2 k = true) →
  specWalk completed1 horizon offset ≤ specWalk completed2 horizon offset.
Proof.
  intros Himp. revert offset. induction horizon as [|h IH]; intros offset; simpl; [done |].
  pose proof (IH (S offset)). pose proof (specWalk_nonneg completed2 h (S offset)).
  destruct (completed1 offset) eqn:H1.
  - rewrite (Himp _ H1). lia.
  - destruct (completed2 offset); case_bool_decide; lia.
Qed.

(** Inside the horizon the walk looks at nothing else than the offsets
    from [offset] on. *)
Lemma specWalk_ext_from (completed1 completed2 : nat → bool) horizon offset :
  (∀ k, (offset ≤ k < offset + horizon)%nat → completed1 k = completed2 k) →
  specWalk completed1 horizon offset = specWalk completed2 horizon offset.
Proof.
  revert offset. induction horizon as [|h IH]; intros offset Heq; simpl; [done |].
  rewrite (Heq offset) by lia. rewrite (IH (S offset)); [done |].
  intros k Hk. apply Heq. lia.
Qed.


(** X3.  The streak is 0 exactly when the habit has a completion neither
    on the day of offset 0 nor on the day of offset 1. *)
Theorem getStreak_zero_iff habitId0 cs now :
  getStreak LocalTZA habitId0 cs now = 0
  ↔ ¬ completedOn habitId0 cs (walkDay LocalTZA now 0)
    ∧ ¬ completedOn habitId0 cs (walkDay LocalTZA now 1).
Proof.
  destruct (getStreak_count LocalTZA habitId0 cs now)
    as (k & Hk & Hall & Hstop & Hyes & Hno).
  split.
  - intros Hz. assert (¬ completedOn habitId0 cs (walkDay LocalTZA now 0)) as H0.
    { intros H0. rewrite (Hyes H0) in Hz. lia. }
    split; [done |]. rewrite (Hno H0) in Hz.
    assert (k = 1%nat) as -> by lia. apply Hstop. lia.
  - intros [H0 H1]. rewrite (Hno H0).
    destruct (decide (k = 1%nat)) as [-> | Hne]; [done |].
    destruct H1. apply Hall. lia.
Qed.

(** X4.  More completions never make a streak shorter. *)
Theorem getStreak_mono habitId0 cs1 cs2 now :
  (∀ d, completedOn habitId0 cs1 d → completedOn habitId0 cs2 d) →
  getStreak LocalTZA habitId0 cs1 now ≤ getStreak LocalTZA habitId0 cs2 now.
Proof.
  intros Himp. rewrite !getStreak_specWalk. apply specWalk_mono.
  intros k. rewrite !bool_decide_eq_true. apply Himp.
Qed.

(** X6.  Once a habit is completed at some instant, its streak seen at
    any instant of the same UTC day is at least 1. *)
Theorem getStreak_positive_after_toggle habitId0 now now' st :
  todayStr now = todayStr now' →
  ¬ completedOn habitId0 (completions st) (todayStr now) →
  1 ≤ getStreak LocalTZA habitId0 (completions (toggleComplete habitId0 now st)) now'.
Proof.
  intros Hday Hfresh. rewrite toggleComplete_fresh by done.
  set (cs' := completions st ++ _).
  destruct (getStreak_count LocalTZA habitId0 cs' now')
    as (k & Hk & _ & _ & Hyes & _).
  rewrite Hyes; [lia |].
  rewrite walkDay_0. fold (todayStr now'). rewrite <-Hday.
  exists {| habitId := habitId0; date := todayStr now |}.
  split; [| done]. unfold cs'. apply elem_of_app. right. left.
Qed.

(** X7.  After a confirmed deletion the streak of the deleted id is 0
    and the streak of every other id is what it was. *)
Theorem getStreak_after_delete id0 st now :
  let st' := deleteHabit id0 Delete st in
  getStreak LocalTZA id0 (completions st') now = 0
  ∧ ∀ id1, id1 ≠ id0 →
      getStreak LocalTZA id1 (completions st') now
      = getStreak LocalTZA id1 (completions st) now.
Proof.
  intros st'.
  assert (completions st' = filter (λ c, habitId c ≠ id0) (completions st)) as ->
    by reflexivity.
  split.
  - rewrite getStreak_unfold. rewrite bool_decide_eq_true_2; [done |].
    apply datesOf_empty. intros d (c & Hc & Hh & _).
    apply list_elem_of_filter in Hc as [Hne _]. done.
  - intros id1 Hne. apply getStreak_ext. intros d. unfold completedOn.
    split; intros (c & Hc & Hh & Hd); exists c; (split; [| done]).
    + by apply list_elem_of_filter in Hc as [_ Hc].
    + apply list_elem_of_filter. split; [congruence | done].
Qed.


End StreakExtras.

(** ** More on dates *)

Section DateExtras.
Import JsDate App.
Local Open Scope Z_scope.

Lemma DayFromYear_mono a b : a ≤ b → DayFromYear a ≤ DayFromYear b.
Proof. intros Hab. unfold DayFromYear. Z.to_euclidean_division_equations; lia. Qed.

Lemma DaysInYear_ge y : 365 ≤ DaysInYear y.
Proof. unfold DaysInYear. repeat case_match; lia. Qed.

(** An instant at most 365 days back lies in the same year or in the
    year before. *)
Lemma YearFromTime_back t n :
  0 ≤ n ≤ 365 →
  YearFromTime t - 1 ≤ YearFromTime (t - n * msPerDay) ≤ YearFromTime t.
Proof.
  intros Hn. pose proof (YearFromTime_spec t) as [Hlo Hhi].
  pose proof (YearFromTime_spec (t - n * msPerDay)) as [Hlo' Hhi'].
  rewrite Day_back in Hlo', Hhi'.
  set (y := YearFromTime t) in *. set (y' := YearFromTime (t - n * msPerDay)) in *.
  split.
  - destruct (decide (y - 1 ≤ y')) as [| Hlt]; [done |].
    pose proof (DayFromYear_mono (y' + 1) (y - 1) ltac:(lia)).
    pose proof (DayFromYear_succ (y - 1)) as Hs. replace (y - 1 + 1) with y in Hs by lia.
    pose proof (DaysInYear_ge (y - 1)). lia.
  - destruct (decide (y' ≤ y)) as [| Hlt]; [done |].
    pose proof (DayFromYear_mono (y + 1) y' ltac:(lia)). lia.
Qed.

Lemma fourDigitYear_back t n :
  1 ≤ YearFromTime t ≤ 9999 → 0 ≤ n ≤ 365 → fourDigitYear (t - n * msPerDay).
Proof.
  intros Hy Hn. unfold fourDigitYear. pose proof (YearFromTime_back t n Hn). lia.
Qed.

Lemma specWalk_S completed horizon offset :
  specWalk completed (S horizon) offset
  = if completed offset then 1 + specWalk completed horizon (S offset)
    else if bool_decide (offset = 0%nat) then specWalk completed horizon (S offset)
    else 0.
Proof. reflexivity. Qed.

Lemma walkDay_today LocalTZA now : walkDay LocalTZA now 0 = todayStr now.
Proof. reflexivity. Qed.

Section FixedZone.
Variable LocalTZA : Z → bool → Z.
Variable offset : Z.
Hypothesis LocalTZA_fixed : ∀ t isUTC, LocalTZA t isUTC = offset.

(** The day of offset [k] of the walk is the UTC day [k] days before
    today. *)
Lemma walkDay_fixed now k :
  1 ≤ YearFromTime now ≤ 9999 → (k ≤ 365)%nat →
  walkDay LocalTZA now k = dayString (now - Z.of_nat k * msPerDay).
Proof.
  intros Hy Hk. unfold walkDay.
  rewrite (walkDate_fixed _ _ _ _ LocalTZA_fixed).
  apply todayStr_dayString, fourDigitYear_back; [done | lia].
Qed.

(** The walk never looks at a day twice. *)
Lemma walkDay_inj now i j :
  1 ≤ YearFromTime now ≤ 9999 → (i ≤ 365)%nat → (j ≤ 365)%nat →
  walkDay LocalTZA now i = walkDay LocalTZA now j → i = j.
Proof.
  intros Hy Hi Hj. rewrite !walkDay_fixed by done. intros Heq.
  apply dayString_inj in Heq; [| apply fourDigitYear_back; [done | lia] ..].
  rewrite !Day_back in Heq. lia.
Qed.

(** In a zone that keeps one offset the walk is the walk of the
    specification over the calendar days before today: offset [k] is
    the UTC day [k] days before today's.  With completions on today-1
    and today-2, and none today and on today-3, the streak is 2. *)
Lemma getStreak_calendar_days habitId0 cs now :
  1 ≤ YearFromTime now ≤ 9999 →
  let completed k :=
    completedOn habitId0 cs (dayString (now - Z.of_nat k * msPerDay)) in
  let streak := getStreak LocalTZA habitId0 cs now in
  streak = specWalk (λ k, bool_decide (completed k)) 365 0
  ∧ (∀ k, (k ≤ 365)%nat → Day (now - Z.of_nat k * msPerDay) = Day now - Z.of_nat k)
  ∧ (¬ completed 0%nat → completed 1%nat → completed 2%nat → ¬ completed 3%nat →
     streak = 2).
Proof.
  intros Hy completed streak.
  assert (streak = specWalk (λ k, bool_decide (completed k)) 365 0) as Hwalk.
  { unfold streak. rewrite getStreak_specWalk. apply specWalk_ext_from.
    intros k Hk. unfold completed. by rewrite walkDay_fixed by (done || lia). }
  split_and!; [done | intros k _; apply Day_back |].
  intros H0 H1 H2 H3. rewrite Hwalk.
  do 4 rewrite (specWalk_S _ _ _).
  rewrite (bool_decide_eq_false_2 (completed 0%nat)) by done.
  rewrite (bool_decide_eq_true_2 (0%nat = 0%nat)) by done.
  rewrite (bool_decide_eq_true_2 (completed 1%nat)) by done.
  rewrite (bool_decide_eq_true_2 (completed 2%nat)) by done.
  rewrite (bool_decide_eq_false_2 (completed 3%nat)) by done.
  by rewrite (bool_decide_eq_false_2 (3%nat = 0%nat)) by done.
Qed.

(** X5.  In a zone that keeps one offset, in a year from 1 to 9999:
    completing a habit that is not completed today makes its streak,
    seen on the same UTC day, one longer, and taking today's completion
    back makes it one shorter. *)
Theorem toggle_changes_streak_by_one habitId0 now now' st :
  1 ≤ YearFromTime now' ≤ 9999 →
  todayStr now = todayStr now' →
  let before := getStreak LocalTZA habitId0 (completions st) now' in
  let after :=
    getStreak LocalTZA habitId0 (completions (toggleComplete habitId0 now st)) now' in
  (¬ completedOn habitId0 (completions st) (todayStr now) → after = before + 1)
  ∧ (completedOn habitId0 (completions st) (todayStr now) → after = before - 1).
Proof.
  intros Hy Hday before after. unfold before, after.
  assert (Hother : ∀ k, (1 ≤ k < 1 + 364)%nat →
                        walkDay LocalTZA now' k ≠ todayStr now).
  { intros k Hk Heq. rewrite Hday, <-(walkDay_today LocalTZA now') in Heq.
    apply walkDay_inj in Heq; [lia | done | lia | lia]. }
  assert (Htoday : walkDay LocalTZA now' 0 = todayStr now)
    by (by rewrite Hday, walkDay_today).
  rewrite !getStreak_specWalk, !(specWalk_S _ 364), !Htoday.
  rewrite (bool_decide_eq_true_2 (0%nat = 0%nat)) by done.
  split; intros Hst.
  - rewrite toggleComplete_fresh by done.
    rewrite (bool_decide_eq_false_2 (completedOn _ (completions st) _)) by done.
    rewrite bool_decide_eq_true_2.
    2: { exists {| habitId := habitId0; date := todayStr now |}.
         split; [| done]. apply elem_of_app. right. left. }
    rewrite (specWalk_ext_from _
               (λ k, bool_decide (completedOn habitId0 (completions st)
                                    (walkDay LocalTZA now' k))) 364 1); [lia |].
    intros k Hk. apply bool_decide_ext.
    unfold completedOn. split.
    + intros (c & Hc & Hh & Hd). exists c. split; [| done].
      apply elem_of_app in Hc as [Hc | Hc%list_elem_of_singleton]; [done |].
      subst c. simpl in Hd. by destruct (Hother k Hk).
    + intros (c & Hc & Hp). exists c. split; [| done]. apply elem_of_app. by left.
  - rewrite toggleComplete_already by done.
    rewrite (bool_decide_eq_true_2 (completedOn _ (completions st) _)) by done.
    rewrite bool_decide_eq_false_2 by apply filter_removes.
    rewrite (specWalk_ext_from _
               (λ k, bool_decide (completedOn habitId0 (completions st)
                                    (walkDay LocalTZA now' k))) 364 1); [lia |].
    intros k Hk. apply bool_decide_ext.
    unfold completedOn. split.
    + intros (c & Hc & Hp). exists c. split; [| done].
      by apply list_elem_of_filter in Hc as [_ Hc].
    + intros (c & Hc & Hh & Hd). exists c. split; [| done].
      apply list_elem_of_filter. split; [| done].
      intros [_ Hd']. rewrite Hd in Hd'. by destruct (Hother k Hk).
Qed.

(** X13.  [lastNDays(n)] gives [n] day strings, the last of them
    today's; in a zone that keeps one offset they are the UTC days from
    [n - 1] days ago up to today, in that order, and no two of them are
    the same while [n] stays within a year of days. *)
Theorem lastNDays_days n now :
  length (lastNDays LocalTZA n now) = n
  ∧ (n ≠ 0%nat → last (lastNDays LocalTZA n now) = Some (todayStr now))
  ∧ (∀ i, (i < n)%nat →
          lastNDays LocalTZA n now !! i
          = Some (todayStr (now - Z.of_nat (n - 1 - i) * msPerDay)))
  ∧ (1 ≤ YearFromTime now ≤ 9999 → (n ≤ 366)%nat → NoDup (lastNDays LocalTZA n now)).
Proof.
  rewrite (lastNDays_fixed _ _ _ _ LocalTZA_fixed).
  refine (conj _ (conj _ (conj _ _))).
  - by rewrite length_fmap, length_reverse, length_seq.
  - intros Hn. destruct n as [|n]; [done |].
    cbn [seq]. rewrite reverse_cons, fmap_app, fmap_cons, fmap_nil, last_snoc.
    f_equal. f_equal. lia.
  - intros i Hi. rewrite list_lookup_fmap, reverse_lookup by (rewrite length_seq; lia).
    rewrite length_seq, lookup_seq_lt by lia. simpl. do 3 f_equal. lia.
  - intros Hy Hn. apply NoDup_fmap_2_strong; [| rewrite reverse_Permutation; apply NoDup_seq].
    intros i j Hi Hj Heq.
    apply elem_of_reverse, elem_of_seq in Hi. apply elem_of_reverse, elem_of_seq in Hj.
    rewrite !todayStr_dayString in Heq by (apply fourDigitYear_back; [done | lia]).
    apply dayString_inj in Heq; [| apply fourDigitYear_back; [done | lia] ..].
    rewrite !Day_back in Heq. lia.
Qed.

End FixedZone.
End DateExtras.

(** ** The week dots *)

Section WeekDotsFacts.
Import JsDate WeekDots.
Local Open Scope Z_scope.

Lemma digitValue_digit d :
  0 ≤ d < 10 → digitValue (Z.to_N (48 + d)) = Some d.
Proof.
  intros Hd. unfold digitValue. rewrite bool_decide_eq_true_2 by lia.
  f_equal. lia.
Qed.

Lemma numeralValue_app acc a b :
  numeralValue acc (a ++ b) = acc' ← numeralValue acc a; numeralValue acc' b.
Proof.
  revert acc. induction a as [|c a IH]; intros acc; simpl; [done |].
  destruct (digitValue c); simpl; [apply IH | done].
Qed.

(** Reading a zero-padded numeral gives the number it was written from. *)
Lemma numeralValue_digits w acc n :
  0 ≤ n < 10 ^ Z.of_nat w →
  numeralValue acc (digits w n) = Some (acc * 10 ^ Z.of_nat w + n).
Proof.
  revert acc n. induction w as [|w IH]; intros acc n Hn.
  - simpl in *. f_equal. lia.
  - rewrite Nat2Z.inj_succ, Z.pow_succ_r in * by lia.
    cbn [digits]. rewrite numeralValue_app, IH by (Z.to_euclidean_division_equations; lia).
    cbn [mbind option_bind numeralValue].
    rewrite digitValue_digit by (Z.to_euclidean_division_equations; lia).
    cbn [mbind option_bind numeralValue]. f_equal.
    Z.to_euclidean_division_equations; lia.
Qed.

Lemma Day_of_midnight d : Day (MakeDate d 0) = d.
Proof. unfold Day, MakeDate, msPerDay. Z.to_euclidean_division_equations; lia. Qed.

(** The instance reads a day string as the midnight that starts the
    day. *)
Lemma parseIsoDay_dayString t :
  fourDigitYear t → parseIsoDay (dayString t) = Some (MakeDate (Day t) 0).
Proof.
  intros Hy. unfold fourDigitYear in Hy.
  pose proof (MonthFromTime_range t) as Hm. pose proof (DateFromTime_range t) as Hd.
  pose proof (numeralValue_digits 4 0 (YearFromTime t) ltac:(simpl; lia)) as Hyv.
  pose proof (numeralValue_digits 2 0 (MonthFromTime t + 1) ltac:(simpl; lia)) as Hmv.
  pose proof (numeralValue_digits 2 0 (DateFromTime t) ltac:(simpl; lia)) as Hdv.
  unfold dayString. cbn [digits app] in *.
  change (js "-") with [0x2D%N]. cbn [app].
  unfold parseIsoDay. rewrite Hyv, Hmv, Hdv. cbn [mbind option_bind].
  do 2 f_equal. rewrite <-(Z.sub_0_r (Day t)), <-MakeDay_back.
  f_equal; simpl; lia.
Qed.

Lemma labelAt_day d :
  labelAt ((((d + 4) `mod` 7) + 6) `rem` 7) = DAY_LABELS !! Z.to_nat ((d + 3) `mod` 7).
Proof.
  assert ((((d + 4) `mod` 7) + 6) `rem` 7 = (d + 3) `mod` 7) as ->.
  { rewrite Z.rem_mod_nonneg by (Z.to_euclidean_division_equations; lia).
    Z.to_euclidean_division_equations; lia. }
  unfold labelAt. rewrite bool_decide_eq_true_2; [done |].
  Z.to_euclidean_division_equations; lia.
Qed.

Lemma DAY_LABELS_total d : is_Some (DAY_LABELS !! Z.to_nat (d `mod` 7)).
Proof.
  apply lookup_lt_is_Some. simpl. Z.to_euclidean_division_equations; lia.
Qed.

Section Week.
Variable LocalTZA : Z → bool → Z.
Variable offset : Z.
Variable DateParse : jsstring → option Z.
Hypothesis LocalTZA_fixed : ∀ t isUTC, LocalTZA t isUTC = offset.
Hypothesis DateParse_day :
  ∀ t, fourDigitYear t → DateParse (dayString t) = Some (MakeDate (Day t) 0).

Lemma dot_day habitId0 cs t :
  fourDigitYear t →
  dot DateParse habitId0 cs (App.todayStr t)
  = {| date := dayString t;
       done := bool_decide (completedOn habitId0 cs (dayString t));
       label := DAY_LABELS !! Z.to_nat ((Day t + 3) `mod` 7) |}.
Proof.
  intros Hy. rewrite todayStr_dayString by done. unfold dot.
  rewrite DateParse_day by done. unfold getUTCDay.
  rewrite Day_of_midnight, labelAt_day.
  by rewrite (bool_decide_ext _ _ (completedOn_Exists habitId0 cs (dayString t))).
Qed.

(** X14.  In a zone that keeps one offset, in a year from 1 to 9999,
    with a [Date] that reads a day string as that day's midnight: the
    week dots are seven, one for each UTC day from six days ago to
    today, in that order; each is marked done exactly when the habit has
    a completion on its day, and carries the letter of its day of the
    week, Monday being the first letter of the table; no label is
    undefined. *)
Theorem weekDots_show_the_week habitId0 cs now :
  1 ≤ YearFromTime now ≤ 9999 →
  dots LocalTZA DateParse habitId0 cs now
  = (λ i : nat,
       let t := now - Z.of_nat i * msPerDay in
       {| date := dayString t;
          done := bool_decide (completedOn habitId0 cs (dayString t));
          label := DAY_LABELS !! Z.to_nat ((Day now - Z.of_nat i + 3) `mod` 7) |})
    <$> [6; 5; 4; 3; 2; 1; 0]%nat
  ∧ Forall (λ d, is_Some (label d)) (dots LocalTZA DateParse habitId0 cs now).
Proof.
  intros Hy.
  assert (dots LocalTZA DateParse habitId0 cs now
          = (λ i : nat,
               let t := now - Z.of_nat i * msPerDay in
               {| date := dayString t;
                  done := bool_decide (completedOn habitId0 cs (dayString t));
                  label := DAY_LABELS !! Z.to_nat ((Day now - Z.of_nat i + 3) `mod` 7) |})
            <$> [6; 5; 4; 3; 2; 1; 0]%nat) as Heq.
  { unfold dots. rewrite (lastNDays_fixed _ _ _ _ LocalTZA_fixed).
    change (reverse (seq 0 7)) with [6; 5; 4; 3; 2; 1; 0]%nat.
    cbn [fmap list_fmap map].
    rewrite !dot_day by (apply fourDigitYear_back; [done | lia]).
    by rewrite !Day_back. }
  split; [exact Heq |]. rewrite Heq. cbn [fmap list_fmap].
  repeat constructor; apply DAY_LABELS_total.
Qed.

End Week.
End WeekDotsFacts.

(** ** More on the transitions *)

Section TransitionExtras.
Import App.
Variable toLowerCase : jsstring → jsstring.

Implicit Types (st : State) (cs : list Completion) (hs : list Habit).

Lemma HABITS_KEY_lookup_saveCompletions cs st :
  storage (saveCompletions cs st) !! HABITS_KEY = storage st !! HABITS_KEY.
Proof. apply lookup_insert_ne. symmetry. apply HABITS_KEY_ne. Qed.

Lemma COMPLETIONS_KEY_lookup_saveHabits hs st :
  storage (saveHabits hs st) !! COMPLETIONS_KEY = storage st !! COMPLETIONS_KEY.
Proof. apply lookup_insert_ne, HABITS_KEY_ne. Qed.

Lemma persisted_saveHabits hs st : persisted st → persisted (saveHabits hs st).
Proof.
  intros [_ Hc]. split.
  - left. apply lookup_insert_eq.
  - by rewrite COMPLETIONS_KEY_lookup_saveHabits.
Qed.

Lemma persisted_saveCompletions cs st : persisted st → persisted (saveCompletions cs st).
Proof.
  intros [Hh _]. split.
  - by rewrite HABITS_KEY_lookup_saveCompletions.
  - left. apply lookup_insert_eq.
Qed.

Lemma persisted_act st a : persisted st → persisted (act toLowerCase st a).
Proof.
  intros Hp. destruct a as [text | nowId nowCreated | id0 [|] | habitId0 now]; simpl.
  - done.
  - unfold addHabit. destruct (negb _); [done |].
    by apply (persisted_saveHabits _ st).
  - done.
  - by apply persisted_saveCompletions, persisted_saveHabits.
  - by apply persisted_saveCompletions.
Qed.

(** Loading a storage that mirrors two collections gives them back. *)
Lemma load_mirrors hs cs disk :
  mirrors stringifyHabits (disk !! HABITS_KEY) hs →
  mirrors stringifyCompletions (disk !! COMPLETIONS_KEY) cs →
  load (mount disk) = Some (setCompletions cs (setHabits hs (mount disk))).
Proof.
  intros [Hh | [Hh ->]] [Hc | [Hc ->]]; unfold load, loadCalls; cbn [storage mount];
    rewrite Hh, Hc;
    rewrite ?parseRecord_stringifyHabits, ?parseRecord_stringifyCompletions;
    cbn [parseRecord app calls];
    rewrite ?call_SetHabits; cbn [mbind option_bind calls];
    rewrite ?call_SetCompletions; done.
Qed.

Lemma persisted_mount : persisted (mount ∅).
Proof. split; right; (split; [apply lookup_empty | done]). Qed.

(** X10.  On a device that has no records the effect leaves the
    mounted component as it is.  Whatever the user then does (type,
    add, delete with either answer, toggle any id at any instant, in
    any order), the storage mirrors the two collections in memory, so a
    component mounted on that storage afterwards loads exactly the
    habits and the completions the user left. *)
Theorem restart_restores (actions : list Action) :
  let st := foldl (act toLowerCase) (mount ∅) actions in
  load (mount ∅) = Some (mount ∅)
  ∧ persisted st
  ∧ habits <$> load (mount (storage st)) = Some (habits st)
  ∧ completions <$> load (mount (storage st)) = Some (completions st).
Proof.
  intros st.
  assert (persisted st) as Hp.
  { unfold st. generalize (mount ∅) persisted_mount.
    induction actions as [|a actions IH]; intros st0 Hp0; simpl; [done |].
    apply IH. by apply persisted_act. }
  split; [done |]. split; [done |]. destruct Hp as [Hh Hc].
  by rewrite (load_mirrors _ _ _ Hh Hc).
Qed.

(** X12.  What the mount effect does with records it cannot use.  With
    neither record, or with empty texts, nothing is loaded.  A habits
    record that is not JSON ends the effect before anything is set, so
    the completions are not loaded either; a completions record that is
    not JSON leaves the habits that were just loaded. *)
Theorem load_edge_cases st :
  (storage st !! HABITS_KEY = None → storage st !! COMPLETIONS_KEY = None →
   load st = Some st)
  ∧ (storage st !! HABITS_KEY = Some [] → storage st !! COMPLETIONS_KEY = Some [] →
     load st = Some st)
  ∧ (∀ text, storage st !! HABITS_KEY = Some text → text ≠ [] →
             Json.parse text = None → load st = Some st)
  ∧ (∀ hs text,
        storage st !! HABITS_KEY = Some (stringifyHabits hs) →
        storage st !! COMPLETIONS_KEY = Some text → text ≠ [] →
        Json.parse text = None →
        load st = Some (setHabits hs st)).
Proof.
  split_and!.
  - intros Hh Hc. unfold load, loadCalls. by rewrite Hh, Hc.
  - intros Hh Hc. unfold load, loadCalls. by rewrite Hh, Hc.
  - intros text Hh Hne Hparse. unfold load, loadCalls. rewrite Hh.
    destruct text as [|c text]; [done |]. cbn [parseRecord JsString.truthy].
    by rewrite Hparse.
  - intros hs text Hh Hc Hne Hparse. unfold load, loadCalls. rewrite Hh, Hc.
    rewrite parseRecord_stringifyHabits.
    destruct text as [|c text]; [done |]. cbn [parseRecord JsString.truthy].
    rewrite Hparse. cbn [option_map calls]. by rewrite call_SetHabits.
Qed.

(** X16.  No habit the app creates carries a video title: on a device
    that had no records, after any user actions, [videoTitle] is
    [undefined] in every habit, and the text stored for the habits has
    no such property. *)
Theorem videoTitle_never_set (actions : list Action) :
  let st := foldl (act toLowerCase) (mount ∅) actions in
  Forall (λ h, videoTitle h = None) (habits st)
  ∧ Forall (λ h, ∃ ps, habitToJson h = Json.JObject ps
                       ∧ Json.getProperty (js "videoTitle") ps = None) (habits st).
Proof.
  intros st.
  assert (Forall (λ h, videoTitle h = None) (habits st)) as Hall.
  { unfold st. generalize (mount ∅)
      (Forall_nil_2 _ : Forall (λ h, videoTitle h = None) (habits (mount ∅))).
    induction actions as [|a actions IH]; intros st0 H0; simpl; [done |].
    apply IH. destruct a as [text | nowId nowCreated | id0 [|] | habitId0 now]; simpl.
    - done.
    - unfold addHabit. destruct (negb _); [done |]. simpl.
      apply Forall_app. split; [done |]. by constructor.
    - done.
    - rewrite Forall_forall in H0 |- *.
      intros h [_ Hin]%list_elem_of_filter. by apply H0.
    - done. }
  split; [done |]. eapply Forall_impl; [exact Hall |].
  intros h Hh. unfold habitToJson. rewrite Hh. eexists. split; [reflexivity |].
  by destruct (videoId h), (playlistId h), (playlistTitle h), (playlistCategory h),
    (playlistEmoji h), (playlistColor h).
Qed.

End TransitionExtras.

(** ** Counting, deleting twice, orphans and ids *)

Section CollectionExtras.
Import App.
Variable toLowerCase : jsstring → jsstring.

Implicit Types (st : State) (cs : list Completion) (hs : list Habit).

Lemma filter_ext_elem {A} (P Q : A → Prop) `{!∀ x, Decision (P x)}
    `{!∀ x, Decision (Q x)} (l : list A) :
  (∀ x, x ∈ l → P x ↔ Q x) → filter P l = filter Q l.
Proof.
  induction l as [|x l IH]; intros Heq; [done |].
  rewrite !filter_cons.
  rewrite IH by (intros y Hy; apply Heq; by right).
  destruct (decide (P x)) as [Hp | Hp].
  - by rewrite decide_True by (by apply Heq; [left |]).
  - rewrite decide_False; [done |]. intros Hq. apply Hp, Heq; [left | done].
Qed.

(** One habit of a collection with distinct ids changes side: the count
    goes up by one. *)
Lemma filter_length_flip (P Q : Habit → Prop) `{!∀ h, Decision (P h)}
    `{!∀ h, Decision (Q h)} hs h0 :
  NoDup (id <$> hs) → h0 ∈ hs →
  (∀ h, id h ≠ id h0 → P h ↔ Q h) →
  (∀ h, id h = id h0 → Q h ∧ ¬ P h) →
  length (filter Q hs) = S (length (filter P hs)).
Proof.
  intros Hnd Hin Hother Hsame. induction hs as [|x hs IH]; [by apply elem_of_nil in Hin |].
  rewrite fmap_cons in Hnd. apply NoDup_cons in Hnd as [Hx Hnd].
  rewrite !filter_cons.
  destruct (decide (id x = id h0)) as [Hid | Hid].
  - destruct (Hsame x Hid) as [Hq Hp].
    rewrite decide_True, decide_False by done. simpl. f_equal. f_equal.
    apply filter_ext_elem. intros h Hh. symmetry. apply Hother.
    intros Heq. apply Hx. rewrite Hid, <-Heq. by apply list_elem_of_fmap_2.
  - apply elem_of_cons in Hin as [-> | Hin]; [done |].
    specialize (IH Hnd Hin).
    destruct (decide (P x)) as [Hp | Hp].
    + rewrite decide_True by (by apply Hother). simpl. by rewrite IH.
    + rewrite decide_False; [done |]. intros Hq. by apply Hp, Hother.
Qed.

(** X2.  With distinct habit ids, completing a habit of the list that is
    not completed today raises "Done Today", counted on the same UTC
    day, by one, and taking the completion back lowers it by one. *)
Theorem completedToday_follows_toggle h0 now now' st :
  NoDup (id <$> habits st) → h0 ∈ habits st → todayStr now = todayStr now' →
  (¬ completedOn (id h0) (completions st) (todayStr now) →
   completedToday now' (toggleComplete (id h0) now st) = S (completedToday now' st))
  ∧ (completedOn (id h0) (completions st) (todayStr now) →
     S (completedToday now' (toggleComplete (id h0) now st)) = completedToday now' st).
Proof.
  intros Hnd Hin Hday. unfold completedToday. rewrite <-Hday.
  change (habits (toggleComplete (id h0) now st)) with (habits st).
  split; intros Hst.
  - rewrite toggleComplete_fresh by done.
    apply (filter_length_flip _ _ _ h0 Hnd Hin).
    + intros h Hne. rewrite !completedOn_Exists. unfold completedOn. split.
      * intros (c & Hc & Hp). exists c. split; [| done]. apply elem_of_app. by left.
      * intros (c & Hc & Hh & Hd). exists c. split; [| done].
        apply elem_of_app in Hc as [Hc | Hc%list_elem_of_singleton]; [done |].
        subst c. simpl in Hh. by destruct Hne.
    + intros h Hid. rewrite !completedOn_Exists, Hid. split; [| done].
      exists {| habitId := id h0; date := todayStr now |}.
      split; [| done]. apply elem_of_app. right. left.
  - rewrite toggleComplete_already by done. symmetry.
    apply (filter_length_flip _ _ _ h0 Hnd Hin).
    + intros h Hne. rewrite !completedOn_Exists. unfold completedOn. split.
      * intros (c & Hc & Hp). exists c. split; [| done].
        by apply list_elem_of_filter in Hc as [_ Hc].
      * intros (c & Hc & Hh & Hd). exists c. split; [| done].
        apply list_elem_of_filter. split; [| done]. intros [Hh' _]. congruence.
    + intros h Hid. rewrite !completedOn_Exists, Hid. split; [done |].
      apply filter_removes.
Qed.

(** Two confirmed deletions in a row. *)
Lemma deleteHabit_twice a b st :
  deleteHabit b Delete (deleteHabit a Delete st)
  = {| habits := filter (λ h, id h ≠ b) (filter (λ h, id h ≠ a) (habits st));
       completions :=
         filter (λ c, habitId c ≠ b) (filter (λ c, habitId c ≠ a) (completions st));
       input := input st;
       storage :=
         <[COMPLETIONS_KEY :=
             stringifyCompletions
               (filter (λ c, habitId c ≠ b)
                  (filter (λ c, habitId c ≠ a) (completions st)))]>
           (<[HABITS_KEY :=
                stringifyHabits
                  (filter (λ h, id h ≠ b) (filter (λ h, id h ≠ a) (habits st)))]>
              (storage st)) |}.
Proof.
  unfold deleteHabit, saveCompletions, saveHabits, setItem, setCompletions, setHabits.
  cbn [habits completions input storage]. f_equal.
  apply map_eq. intros k. rewrite !lookup_insert.
  repeat case_decide; done.
Qed.

(** X8.  Confirming the deletion of the same id a second time changes
    nothing, memory and storage alike, and two confirmed deletions give
    the same state in either order. *)
Theorem deleteHabit_idempotent_commutes a b st :
  deleteHabit a Delete (deleteHabit a Delete st) = deleteHabit a Delete st
  ∧ deleteHabit b Delete (deleteHabit a Delete st)
    = deleteHabit a Delete (deleteHabit b Delete st).
Proof.
  split.
  - rewrite deleteHabit_twice.
    rewrite !list_filter_filter_l by done. reflexivity.
  - rewrite !deleteHabit_twice.
    assert (∀ hs, filter (λ h, id h ≠ b) (filter (λ h, id h ≠ a) hs)
                  = filter (λ h, id h ≠ a) (filter (λ h, id h ≠ b) hs)) as Hh.
    { intros hs. rewrite !list_filter_filter. apply list_filter_iff. tauto. }
    assert (∀ cs, filter (λ c, habitId c ≠ b) (filter (λ c, habitId c ≠ a) cs)
                  = filter (λ c, habitId c ≠ a) (filter (λ c, habitId c ≠ b) cs)) as Hc.
    { intros cs. rewrite !list_filter_filter. apply list_filter_iff. tauto. }
    by rewrite Hh, Hc.
Qed.

(** X9.  When every completion belongs to a habit of the list, it still
    does after typing, after adding a habit, after a deletion with
    either answer, and after toggling a habit of the list.  Toggling an
    id that no habit has, on a day without a completion for it, leaves a
    completion that belongs to no habit. *)
Theorem noOrphans_preserved st :
  noOrphans st →
  (∀ text, noOrphans (setInput text st))
  ∧ (∀ nowId nowCreated, noOrphans (addHabit toLowerCase nowId nowCreated st))
  ∧ (∀ id0 pressed, noOrphans (deleteHabit id0 pressed st))
  ∧ (∀ h now, h ∈ habits st → noOrphans (toggleComplete (id h) now st))
  ∧ (∀ habitId0 now,
        (∀ h, h ∈ habits st → id h ≠ habitId0) →
        ¬ noOrphans (toggleComplete habitId0 now st)).
Proof.
  intros Hno. split_and!.
  - done.
  - intros nowId nowCreated. unfold addHabit. destruct (negb _); [done |].
    intros c Hc. destruct (Hno c Hc) as (h & Hh & Hid). exists h.
    split; [| done]. simpl. apply elem_of_app. by left.
  - intros id0 [|]; [done |]. intros c Hc. simpl in Hc.
    apply list_elem_of_filter in Hc as [Hne Hc].
    destruct (Hno c Hc) as (h & Hh & Hid). exists h. split; [| done].
    simpl. apply list_elem_of_filter. split; [congruence | done].
  - intros h now Hh c Hc.
    change (habits (toggleComplete (id h) now st)) with (habits st).
    destruct (decide (completedOn (id h) (completions st) (todayStr now)))
      as [Hal | Hfresh].
    + rewrite toggleComplete_already in Hc by done.
      apply list_elem_of_filter in Hc as [_ Hc]. by apply Hno.
    + rewrite toggleComplete_fresh in Hc by done.
      apply elem_of_app in Hc as [Hc | Hc%list_elem_of_singleton]; [by apply Hno |].
      subst c. by exists h.
  - intros habitId0 now Hnone Hno'.
    assert (¬ completedOn habitId0 (completions st) (todayStr now)) as Hfresh.
    { intros (c & Hc & Hh & _). destruct (Hno c Hc) as (h & Hin & Hid).
      apply (Hnone h Hin). congruence. }
    destruct (Hno' {| habitId := habitId0; date := todayStr now |})
      as (h & Hin & Hid).
    + rewrite toggleComplete_fresh by done. apply elem_of_app. right. left.
    + by apply (Hnone h Hin).
Qed.

(** X17.  Completing a habit and taking the completion back on the same
    UTC day gives back the collection as it was, element for element. *)
Theorem toggle_on_off_restores habitId0 now1 now2 st :
  todayStr now1 = todayStr now2 →
  ¬ completedOn habitId0 (completions st) (todayStr now1) →
  completions (toggleComplete habitId0 now2 (toggleComplete habitId0 now1 st))
  = completions st.
Proof.
  intros Hday Hfresh.
  rewrite toggleComplete_already; rewrite toggleComplete_fresh by done.
  - rewrite <-Hday, filter_app, filter_absent by done.
    rewrite filter_cons_False, filter_nil, app_nil_r; [done |].
    simpl. intros Hn. by apply Hn.
  - rewrite <-Hday. exists {| habitId := habitId0; date := todayStr now1 |}.
    split; [| done]. apply elem_of_app. right. left.
Qed.

Lemma js_inj : Inj (=) (=) js.
Proof.
  intros a b Heq. unfold js in Heq.
  assert (Inj (=) (=) N_of_ascii) as Hinj.
  { intros x y Hxy. by rewrite <-(ascii_N_embedding x), <-(ascii_N_embedding y), Hxy. }
  apply (list_fmap_eq_inj N_of_ascii Hinj) in Heq.
  by rewrite <-(string_of_list_ascii_of_string a),
    <-(string_of_list_ascii_of_string b), Heq.
Qed.

Lemma numberToString_inj : Inj (=) (=) JsDate.numberToString.
Proof. intros a b Heq. by apply js_inj, (inj pretty) in Heq. Qed.

(** X18.  Habit ids stay distinct under deletions and toggles, and
    under the creation of a habit at a clock reading that differs from
    the readings the present ids were made from. *)
Theorem ids_stay_distinct (readings : list Z) st :
  NoDup (id <$> habits st) →
  Forall (λ h, ∃ t, t ∈ readings ∧ id h = JsDate.numberToString t) (habits st) →
  (∀ id0 pressed, NoDup (id <$> habits (deleteHabit id0 pressed st)))
  ∧ (∀ habitId0 now, NoDup (id <$> habits (toggleComplete habitId0 now st)))
  ∧ (∀ nowId nowCreated,
        nowId ∉ readings →
        NoDup (id <$> habits (addHabit toLowerCase nowId nowCreated st))
        ∧ Forall (λ h, ∃ t, t ∈ nowId :: readings ∧ id h = JsDate.numberToString t)
            (habits (addHabit toLowerCase nowId nowCreated st))).
Proof.
  intros Hnd Hfrom. split_and!.
  - intros id0 [|]; [done |]. simpl.
    apply (sublist_NoDup _ _ Hnd), fmap_sublist, sublist_filter.
  - done.
  - intros nowId nowCreated Hnew. unfold addHabit. destruct (negb _).
    + split; [done |]. eapply Forall_impl; [exact Hfrom |].
      intros h (t & Ht & Hid). exists t. split; [by right | done].
    + simpl. split.
      * rewrite fmap_app. apply NoDup_app. split_and!; [done | | apply NoDup_singleton].
        intros x Hx Hx'. simpl in Hx'. apply list_elem_of_singleton in Hx'. subst x.
        apply list_elem_of_fmap in Hx as (h & Hid & Hh).
        rewrite Forall_forall in Hfrom. destruct (Hfrom h Hh) as (t & Ht & Hid').
        rewrite Hid' in Hid. apply numberToString_inj in Hid. by subst t.
      * apply Forall_app. split.
        -- eapply Forall_impl; [exact Hfrom |].
           intros h (t & Ht & Hid). exists t. split; [by right | done].
        -- constructor; [| done]. exists nowId. split; [left | done].
Qed.

End CollectionExtras.

(** ** The media panels of a card *)

Section PanelFacts.
Import HabitCard.

(** X15.  After a press on either button at most one of the two media
    panels is open, whatever was open before; a press on the button of
    the open panel closes it, and a press on the other button swaps the
    panels. *)
Theorem panels_exclusive s b :
  ¬ (showVideo (press s b) = true ∧ showPlaylist (press s b) = true)
  ∧ (showVideo s = true → showPlaylist s = false →
     press s VideoButton = initial
     ∧ press s PlaylistButton = {| showVideo := false; showPlaylist := true |})
  ∧ (showPlaylist s = true → showVideo s = false →
     press s PlaylistButton = initial
     ∧ press s VideoButton = {| showVideo := true; showPlaylist := false |}).
Proof.
  destruct s as [[|] [|]], b; simpl; split_and!; try done; by intros [? ?].
Qed.

End PanelFacts.

(** ** What a created habit shows, and a day seen twice *)

Section CardExtras.
Import App.
Variable toLowerCase : jsstring → jsstring.

(** Every entry of the playlist table, and the fallback, has a playlist
    id, a category and a colour. *)
Lemma playlist_entries_filled :
  Forall (λ e, JsString.truthy (Playlists.playlistId e) = true
               ∧ JsString.truthy (Playlists.category e) = true
               ∧ JsString.truthy (Playlists.color e) = true)
    (Playlists.FALLBACK :: Playlists.PLAYLIST_MAP).
Proof. apply (bool_decide_unpack _). by vm_compute. Qed.

Lemma suggestPlaylist_filled name :
  let p := Playlists.suggestPlaylist toLowerCase name in
  JsString.truthy (Playlists.playlistId p) = true
  ∧ JsString.truthy (Playlists.category p) = true
  ∧ JsString.truthy (Playlists.color p) = true.
Proof.
  intros p. pose proof playlist_entries_filled as Hall. rewrite Forall_forall in Hall.
  apply Hall. unfold p, Playlists.suggestPlaylist.
  destruct (playlist_lookup_first (toLowerCase name) Playlists.PLAYLIST_MAP)
    as [(before & entry & after & Heq & _ & _ & ->) | [_ ->]].
  - right. rewrite Heq. apply elem_of_app. right. left.
  - left.
Qed.

(** X19.  On a device that had no records, after any user actions,
    every habit in the list shows its category pill, in the colour of
    its playlist entry, and its playlist button. *)
Theorem created_habits_show_playlist (actions : list Action) :
  let st := foldl (act toLowerCase) (mount ∅) actions in
  Forall (λ h, HabitCard.pillVisible h = true
               ∧ HabitCard.playlistButtonVisible h = true
               ∧ playlistColor h = Some (HabitCard.pillColor h)) (habits st).
Proof.
  intros st. unfold st.
  set (shown := λ h, HabitCard.pillVisible h = true
                     ∧ HabitCard.playlistButtonVisible h = true
                     ∧ playlistColor h = Some (HabitCard.pillColor h)).
  generalize (mount ∅) (Forall_nil_2 _ : Forall shown (habits (mount ∅))).
  induction actions as [|a actions IH]; intros st0 H0; simpl; [done |].
  apply IH. destruct a as [text | nowId nowCreated | id0 [|] | habitId0 now]; simpl.
  - done.
  - unfold addHabit. destruct (negb _); [done |]. simpl.
    apply Forall_app. split; [done |]. constructor; [| done].
    destruct (suggestPlaylist_filled (JsString.trim (input st0))) as (Hid & Hcat & Hcol).
    unfold shown, HabitCard.pillVisible, HabitCard.playlistButtonVisible,
      HabitCard.pillColor, HabitCard.truthyProperty. simpl.
    by rewrite Hid, Hcat, Hcol.
  - done.
  - rewrite Forall_forall in H0 |- *.
    intros h [_ Hin]%list_elem_of_filter. by apply H0.
  - done.
Qed.

End CardExtras.

Section ClockChange.
Import JsDate App.
Variable LocalTZA : Z → bool → Z.
Local Open Scope Z_scope.

(** The first ten characters of the ISO string are a function of the
    UTC day number, in every year. *)
Lemma todayStr_Day t1 t2 : Day t1 = Day t2 → todayStr t1 = todayStr t2.
Proof.
  intros Hd.
  assert (YearFromTime t1 = YearFromTime t2) as Hy
    by (unfold YearFromTime; by rewrite Hd).
  assert (DayWithinYear t1 = DayWithinYear t2) as Hw
    by (unfold DayWithinYear; by rewrite Hd, Hy).
  assert (InLeapYear t1 = InLeapYear t2) as Hl
    by (unfold InLeapYear; by rewrite Hy).
  assert (MonthFromTime t1 = MonthFromTime t2) as Hm
    by (unfold MonthFromTime; by rewrite Hw, Hl).
  assert (DateFromTime t1 = DateFromTime t2) as Hdt
    by (unfold DateFromTime; by rewrite Hw, Hl, Hm).
  unfold todayStr, slice0, toISOString. rewrite Hy, Hm, Hdt.
  assert (∀ a b c d e rest : jsstring,
            a ++ b ++ c ++ d ++ e ++ rest = (a ++ b ++ c ++ d ++ e) ++ rest) as Hassoc
    by (intros; by rewrite <-!(assoc_L (++))).
  rewrite (Hassoc _ _ _ _ _ (js "T" ++ digits 2 (HourFromTime t1) ++ _)).
  rewrite (Hassoc _ _ _ _ _ (js "T" ++ digits 2 (HourFromTime t2) ++ _)).
  assert (10 ≤ length (isoYear (YearFromTime t2) ++ js "-"
                       ++ digits 2 (MonthFromTime t2 + 1) ++ js "-"
                       ++ digits 2 (DateFromTime t2)))%nat as Hlen.
  { unfold isoYear. case_bool_decide; rewrite !length_app, !length_digits; simpl; lia. }
  etrans; [apply take_app_le, Hlen |]. symmetry. apply take_app_le, Hlen.
Qed.

(** X20.  Where the clocks went forward: when the local offset one
    local day earlier is smaller by [delta] and less than [delta] is
    left of the UTC day, the step back of the walk stays on the same UTC
    day, offsets 0 and 1 look at the same day string, and a habit
    completed today has a streak of at least 2, whatever else it has. *)
Theorem walk_repeats_day_after_clock_change habitId0 cs now :
  let now1 := LocalTZA now true in
  let now0 := LocalTZA (now + now1 - msPerDay) false in
  let delta := now1 - now0 in
  msPerDay ≤ TimeWithinDay now + delta < 2 * msPerDay →
  walkDay LocalTZA now 1 = walkDay LocalTZA now 0
  ∧ (completedOn habitId0 cs (todayStr now) → 2 ≤ getStreak LocalTZA habitId0 cs now).
Proof.
  intros now1 now0 delta Hdelta.
  assert (walkDate LocalTZA now 1 = now - msPerDay + delta) as Hw.
  { rewrite walkDate_succ. unfold walkDate, daysBack, setDate, getDate, UTC, MakeDate.
    cbn [Nat.iter nat_rect]. rewrite MakeDay_back.
    fold now1. unfold LocalTime. fold now1.
    assert ((Day (now + now1) - 1) * msPerDay + TimeWithinDay (now + now1)
            = now + now1 - msPerDay) as ->.
    { unfold Day, TimeWithinDay, msPerDay. Z.to_euclidean_division_equations; lia. }
    fold now0. unfold delta. lia. }
  assert (walkDay LocalTZA now 1 = walkDay LocalTZA now 0) as Hsame.
  { unfold walkDay. rewrite Hw. apply todayStr_Day.
    change (walkDate LocalTZA now 0) with now.
    unfold Day, TimeWithinDay, msPerDay in *. Z.to_euclidean_division_equations; lia. }
  split; [done |]. intros Htoday.
  destruct (getStreak_count LocalTZA habitId0 cs now)
    as (k & Hk & Hall & Hstop & Hyes & _).
  rewrite Hyes by done.
  destruct (decide (k = 1%nat)) as [-> | Hne]; [| lia].
  destruct Hstop; [lia |]. by rewrite Hsame.
Qed.

End ClockChange.

(** ** The card as a whole *)

Section CardAgreement.
Import JsDate App.
Variable LocalTZA : Z → bool → Z.
Variable offset : Z.
Variable DateParse : jsstring → option Z.
Hypothesis LocalTZA_fixed : ∀ t isUTC, LocalTZA t isUTC = offset.
Local Open Scope Z_scope.

(** X11.  The parts of one card agree.  In a zone that keeps one
    offset, with the three clock readings of a render (the [today] of
    the list, the one of [getStreak] and the one of [lastNDays]) on the
    same UTC day: the last week dot is done exactly when the checkbox is
    checked, a checked card has a streak of at least 1, so it shows the
    flame, and a card without the flame is not checked. *)
Theorem card_checkbox_agrees habit cs now nowStreak nowDots :
  todayStr now = todayStr nowStreak → todayStr now = todayStr nowDots →
  let checked := HabitCard.done habit cs (todayStr now) in
  let streak := getStreak LocalTZA (id habit) cs nowStreak in
  WeekDots.done <$> last (WeekDots.dots LocalTZA DateParse (id habit) cs nowDots)
  = Some checked
  ∧ (checked = true → 1 ≤ streak)
  ∧ (streak = 0 → checked = false).
Proof.
  intros Hs Hd checked streak.
  assert (checked = true → 1 ≤ streak) as Hflame.
  { intros Hc. unfold checked, HabitCard.done in Hc.
    apply bool_decide_eq_true_1, completedOn_Exists in Hc.
    destruct (getStreak_count LocalTZA (id habit) cs nowStreak)
      as (k & Hk & _ & _ & Hyes & _).
    unfold streak. rewrite Hyes; [lia |]. by rewrite walkDay_today, <-Hs. }
  split_and!.
  - unfold WeekDots.dots. rewrite (lastNDays_fixed _ _ _ _ LocalTZA_fixed).
    change (reverse (seq 0 7)) with [6; 5; 4; 3; 2; 1; 0]%nat.
    cbn [fmap list_fmap map last].
    change (Z.of_nat 0 * msPerDay) with 0. rewrite Z.sub_0_r, <-Hd.
    reflexivity.
  - done.
  - intros Hz. destruct checked; [| done]. specialize (Hflame eq_refl). lia.
Qed.

End CardAgreement.

(** ** More properties on the example states *)

Lemma exampleZone_fixed : ∀ t isUTC, exampleZone t isUTC = 7200000%Z.
Proof. reflexivity. Qed.

Lemma exampleNow_year : (1 ≤ JsDate.YearFromTime exampleNow ≤ 9999)%Z.
Proof. by vm_compute. Qed.

Lemma exampleNow_same_day : App.todayStr exampleNow = App.todayStr (exampleNow + 1000).
Proof. by vm_compute. Qed.

Lemma exampleTracked_not_today :
  ¬ completedOn exampleHabitId (App.completions exampleTracked) (App.todayStr exampleNow).
Proof.
  intros (c & Hc & _ & Hd).
  change (App.completions exampleTracked) with exampleCompletions in Hc.
  unfold exampleCompletions in Hc.
  apply elem_of_cons in Hc as [-> | Hc]; [by vm_compute in Hd |].
  apply list_elem_of_singleton in Hc as ->. by vm_compute in Hd.
Qed.

Lemma exampleHabit_id : App.id exampleHabit = exampleHabitId.
Proof. by vm_compute. Qed.

Lemma exampleTracked_noOrphans : noOrphans exampleTracked.
Proof.
  intros c Hc. exists exampleHabit. split; [rewrite exampleTracked_habits; left |].
  change (App.completions exampleTracked) with exampleCompletions in Hc.
  unfold exampleCompletions in Hc. rewrite exampleHabit_id.
  apply elem_of_cons in Hc as [-> | Hc]; [done |].
  by apply list_elem_of_singleton in Hc as ->.
Qed.

Lemma exampleTracked_NoDup : NoDup (App.id <$> App.habits exampleTracked).
Proof. rewrite exampleTracked_habits. apply NoDup_singleton. Qed.

Lemma getStreak_mono_witness :
  (∀ d, completedOn exampleHabitId (take 1 exampleCompletions) d →
        completedOn exampleHabitId exampleCompletions d)
  ∧ (App.getStreak exampleZone exampleHabitId (take 1 exampleCompletions) exampleNow
     ≤ App.getStreak exampleZone exampleHabitId exampleCompletions exampleNow)%Z.
Proof.
  assert (∀ d, completedOn exampleHabitId (take 1 exampleCompletions) d →
               completedOn exampleHabitId exampleCompletions d) as Himp.
  { intros d (c & Hc & Hp). exists c. split; [| done].
    by apply (subseteq_take 1 exampleCompletions). }
  exact (conj Himp
           (getStreak_mono exampleZone exampleHabitId (take 1 exampleCompletions)
              exampleCompletions exampleNow Himp)).
Defined.

Lemma getStreak_positive_after_toggle_witness :
  App.todayStr exampleNow = App.todayStr (exampleNow + 1000)
  ∧ ¬ completedOn exampleHabitId (App.completions exampleTracked)
        (App.todayStr exampleNow)
  ∧ (1 ≤ App.getStreak exampleZone exampleHabitId
           (App.completions (App.toggleComplete exampleHabitId exampleNow exampleTracked))
           (exampleNow + 1000))%Z.
Proof.
  exact (conj exampleNow_same_day
           (conj exampleTracked_not_today
              (getStreak_positive_after_toggle exampleZone exampleHabitId exampleNow
                 (exampleNow + 1000) exampleTracked exampleNow_same_day
                 exampleTracked_not_today))).
Defined.

Lemma toggle_changes_streak_by_one_witness :
  (1 ≤ JsDate.YearFromTime exampleNow ≤ 9999)%Z
  ∧ App.todayStr exampleNow = App.todayStr exampleNow
  ∧ ¬ completedOn exampleHabitId (App.completions exampleTracked)
        (App.todayStr exampleNow)
  ∧ App.getStreak exampleZone exampleHabitId
      (App.completions (App.toggleComplete exampleHabitId exampleNow exampleTracked))
      exampleNow
    = (App.getStreak exampleZone exampleHabitId (App.completions exampleTracked)
         exampleNow + 1)%Z.
Proof.
  pose proof (toggle_changes_streak_by_one exampleZone 7200000 exampleZone_fixed
                exampleHabitId exampleNow exampleNow exampleTracked exampleNow_year
                eq_refl) as Hstep.
  cbv zeta in Hstep. destruct Hstep as [Hup _].
  exact (conj exampleNow_year
           (conj eq_refl (conj exampleTracked_not_today (Hup exampleTracked_not_today)))).
Defined.

Lemma lastNDays_days_witness :
  (∀ t isUTC, exampleZone t isUTC = 7200000%Z)
  ∧ length (App.lastNDays exampleZone 7 exampleNow) = 7%nat
  ∧ last (App.lastNDays exampleZone 7 exampleNow) = Some (App.todayStr exampleNow)
  ∧ NoDup (App.lastNDays exampleZone 7 exampleNow).
Proof.
  destruct (lastNDays_days exampleZone 7200000 exampleZone_fixed 7 exampleNow)
    as (Hlen & Hlast & _ & Hnd).
  exact (conj exampleZone_fixed
           (conj Hlen
              (conj (Hlast ltac:(done)) (Hnd exampleNow_year ltac:(lia))))).
Defined.

Lemma weekDots_show_the_week_witness :
  (1 ≤ JsDate.YearFromTime exampleNow ≤ 9999)%Z
  ∧ WeekDots.label
      <$> WeekDots.dots exampleZone WeekDots.parseIsoDay exampleHabitId
            exampleCompletions exampleNow
    = [Some (js "W"); Some (js "T"); Some (js "F"); Some (js "S"); Some (js "S");
       Some (js "M"); Some (js "T")]
  ∧ WeekDots.done
      <$> WeekDots.dots exampleZone WeekDots.parseIsoDay exampleHabitId
            exampleCompletions exampleNow
    = [false; false; false; false; true; true; false].
Proof.
  destruct (weekDots_show_the_week exampleZone 7200000 WeekDots.parseIsoDay
              exampleZone_fixed parseIsoDay_dayString exampleHabitId
              exampleCompletions exampleNow exampleNow_year) as [Heq _].
  split; [exact exampleNow_year |]. rewrite Heq. split; by vm_compute.
Defined.

Lemma completedToday_follows_toggle_witness :
  NoDup (App.id <$> App.habits exampleTracked)
  ∧ exampleHabit ∈ App.habits exampleTracked
  ∧ App.todayStr exampleNow = App.todayStr (exampleNow + 1000)
  ∧ ¬ completedOn (App.id exampleHabit) (App.completions exampleTracked)
        (App.todayStr exampleNow)
  ∧ App.completedToday (exampleNow + 1000)
      (App.toggleComplete (App.id exampleHabit) exampleNow exampleTracked)
    = S (App.completedToday (exampleNow + 1000) exampleTracked).
Proof.
  assert (exampleHabit ∈ App.habits exampleTracked) as Hin
    by (rewrite exampleTracked_habits; left).
  assert (¬ completedOn (App.id exampleHabit) (App.completions exampleTracked)
            (App.todayStr exampleNow)) as Hfresh
    by (rewrite exampleHabit_id; exact exampleTracked_not_today).
  destruct (completedToday_follows_toggle exampleHabit exampleNow (exampleNow + 1000)
              exampleTracked exampleTracked_NoDup Hin exampleNow_same_day)
    as [Hup _].
  exact (conj exampleTracked_NoDup
           (conj Hin (conj exampleNow_same_day (conj Hfresh (Hup Hfresh))))).
Defined.

Lemma noOrphans_preserved_witness :
  noOrphans exampleTracked
  ∧ noOrphans (App.toggleComplete (App.id exampleHabit) exampleNow exampleTracked)
  ∧ noOrphans (App.deleteHabit (App.id exampleHabit) App.Delete exampleTracked)
  ∧ ¬ noOrphans (App.toggleComplete (js "0") exampleNow exampleTracked).
Proof.
  destruct (noOrphans_preserved asciiLowerCase exampleTracked exampleTracked_noOrphans)
    as (_ & _ & Hdel & Htog & Hbad).
  assert (exampleHabit ∈ App.habits exampleTracked) as Hin
    by (rewrite exampleTracked_habits; left).
  refine (conj exampleTracked_noOrphans
            (conj (Htog _ _ Hin) (conj (Hdel _ _) (Hbad _ _ _)))).
  intros h Hh. rewrite exampleTracked_habits in Hh.
  apply list_elem_of_singleton in Hh as ->. by vm_compute.
Defined.

Lemma toggle_on_off_restores_witness :
  App.todayStr exampleNow = App.todayStr (exampleNow + 1000)
  ∧ ¬ completedOn exampleHabitId (App.completions exampleTracked)
        (App.todayStr exampleNow)
  ∧ App.completions
      (App.toggleComplete exampleHabitId (exampleNow + 1000)
         (App.toggleComplete exampleHabitId exampleNow exampleTracked))
    = App.completions exampleTracked.
Proof.
  exact (conj exampleNow_same_day
           (conj exampleTracked_not_today
              (toggle_on_off_restores exampleHabitId exampleNow (exampleNow + 1000)
                 exampleTracked exampleNow_same_day exampleTracked_not_today))).
Defined.

Lemma ids_stay_distinct_witness :
  NoDup (App.id <$> App.habits exampleTracked)
  ∧ Forall (λ h, ∃ t, t ∈ [exampleNow] ∧ App.id h = JsDate.numberToString t)
      (App.habits exampleTracked)
  ∧ ((exampleNow + 60000)%Z ∉ [exampleNow])
  ∧ NoDup (App.id
           <$> App.habits
                 (App.addHabit asciiLowerCase (exampleNow + 60000) (exampleNow + 60000)
                    (App.setInput (js "Read") exampleTracked))).
Proof.
  assert (Forall (λ h, ∃ t, t ∈ [exampleNow] ∧ App.id h = JsDate.numberToString t)
            (App.habits (App.setInput (js "Read") exampleTracked))) as Hfrom.
  { change (App.habits (App.setInput (js "Read") exampleTracked))
      with (App.habits exampleTracked).
    rewrite exampleTracked_habits. constructor; [| done].
    exists exampleNow. split; [left | exact exampleHabit_id]. }
  assert ((exampleNow + 60000)%Z ∉ [exampleNow]) as Hnew.
  { intros Hin. apply list_elem_of_singleton in Hin. by vm_compute in Hin. }
  destruct (ids_stay_distinct asciiLowerCase [exampleNow]
              (App.setInput (js "Read") exampleTracked) exampleTracked_NoDup Hfrom)
    as (_ & _ & Hadd).
  exact (conj exampleTracked_NoDup
           (conj Hfrom (conj Hnew (proj1 (Hadd _ (exampleNow + 60000)%Z Hnew))))).
Defined.

Lemma walk_repeats_day_after_clock_change_witness :
  (JsDate.msPerDay
   ≤ JsDate.TimeWithinDay 1773012600000
     + (springForwardZone 1773012600000 true
        - springForwardZone
            (1773012600000 + springForwardZone 1773012600000 true - JsDate.msPerDay)
            false)
   < 2 * JsDate.msPerDay)%Z
  ∧ walkDay springForwardZone 1773012600000 1 = js "2026-03-08"
  ∧ walkDay springForwardZone 1773012600000 0 = js "2026-03-08"
  ∧ (2 ≤ App.getStreak springForwardZone (js "1")
           [{| App.habitId := js "1"; App.date := js "2026-03-08" |}]
           1773012600000)%Z.
Proof.
  assert (JsDate.msPerDay
          ≤ JsDate.TimeWithinDay 1773012600000
            + (springForwardZone 1773012600000 true
               - springForwardZone
                   (1773012600000 + springForwardZone 1773012600000 true
                    - JsDate.msPerDay) false)
          < 2 * JsDate.msPerDay)%Z as Hlate by (by vm_compute).
  destruct (walk_repeats_day_after_clock_change springForwardZone (js "1")
              [{| App.habitId := js "1"; App.date := js "2026-03-08" |}]
              1773012600000 Hlate) as [Hsame Htwo].
  assert (walkDay springForwardZone 1773012600000 0 = js "2026-03-08") as Htoday
    by (by vm_compute).
  refine (conj Hlate (conj _ (conj Htoday (Htwo _)))).
  - by rewrite Hsame.
  - eexists. split; [left |]. split; [done | by vm_compute].
Defined.

Lemma card_checkbox_agrees_witness :
  (∀ t isUTC, exampleZone t isUTC = 7200000%Z)
  ∧ App.todayStr exampleNow = App.todayStr (exampleNow + 1000)
  ∧ WeekDots.done
      <$> last (WeekDots.dots exampleZone WeekDots.parseIsoDay (App.id exampleHabit)
                  exampleCompletions (exampleNow + 1000))
    = Some (HabitCard.done exampleHabit exampleCompletions (App.todayStr exampleNow)).
Proof.
  destruct (card_checkbox_agrees exampleZone 7200000 WeekDots.parseIsoDay
              exampleZone_fixed exampleHabit exampleCompletions exampleNow
              (exampleNow + 1000) (exampleNow + 1000) exampleNow_same_day
              exampleNow_same_day) as (Hlast & _).
  exact (conj exampleZone_fixed (conj exampleNow_same_day Hlast)).
Defined.

Lemma load_edge_cases_witness :
  Json.parse (js "{") = None
  ∧ App.load (App.setItem App.HABITS_KEY (js "{") exampleTracked)
    = Some (App.setItem App.HABITS_KEY (js "{") exampleTracked).
Proof.
  assert (Json.parse (js "{") = None) as Hparse by (by vm_compute).
  destruct (load_edge_cases (App.setItem App.HABITS_KEY (js "{") exampleTracked))
    as (_ & _ & Hbad & _).
  refine (conj Hparse (Hbad (js "{") _ _ Hparse)).
  - apply lookup_insert_eq.
  - done.
Defined.
